(** * CgroupProber: startup backfill of existing cgroups

    A shallow embedding of [collector/kernel/cgroup_prober.cc]:
    the hierarchy walker [trigger_existing_cgroup_probe], the mountpoint
    locators [find_cgroup_v1_mountpoint] / [find_cgroup_v2_mountpoint], and
    the constructor [CgroupProber::CgroupProber] that sequences probe
    attachment, backfill and probe removal.

    The operating system is an explicit environment: [opendir], [readdir],
    [closedir], [std::ifstream] and [stat] are oracles of a [filesystem]
    record, and every call the code makes is recorded in a chronological
    trace, so that statements about "what was opened, pushed or closed, and in
    which order" are statements about that trace. *)

From Stdlib Require Import String Ascii List ZArith Bool Arith Lia Permutation.
Import ListNotations.

Local Open Scope string_scope.
Local Open Scope list_scope.
Local Open Scope Z_scope.

(** ** POSIX constants used by the code ([<dirent.h>], [<sys/stat.h>]) *)

Module Posix.

(** [d_type] values of [struct dirent]. *)
Definition DT_UNKNOWN : Z := 0.
Definition DT_DIR : Z := 4.
Definition DT_REG : Z := 8.
Definition DT_LNK : Z := 10.

(** File-type bits of [st_mode]. *)
Definition S_IFMT : Z := 61440.   (* 0170000 *)
Definition S_IFDIR : Z := 16384.  (* 0040000 *)
Definition S_IFREG : Z := 32768.  (* 0100000 *)

(** [S_ISREG(m)] is [((m) & S_IFMT) == S_IFREG]. *)
Definition S_ISREG (st_mode : Z) : bool := Z.land st_mode S_IFMT =? S_IFREG.

(** The two fields of [struct dirent] the walker reads. *)
Record dirent : Type := { d_type : Z; d_name : string }.

End Posix.
Import Posix.

(** [a + "/" + b] on [std::string]. *)
Definition path_join (dir_name name : string) : string :=
  dir_name ++ "/" ++ name.

(** ** The environment *)

(** - [opendir p] is [None] when [opendir] returns [NULL], otherwise the
      entries that successive [readdir] calls on the stream return, in
      order, until [readdir] returns [NULL];
    - [ifstream_fail p] is [file.fail()] right after [std::ifstream file(p)];
    - [closedir p] is the status of [closedir] on the stream opened at [p];
    - [stat p] is [None] when [stat] returns [-1], otherwise [st_mode].
    The oracles are fixed for the duration of a run: the filesystem is not
    changed by anyone else while the prober starts up. *)
Record filesystem : Type := {
  opendir : string -> option (list dirent);
  ifstream_fail : string -> bool;
  closedir : string -> Z;
  stat : string -> option Z
}.

(** ** Existing-hierarchy walker *)

Module Walker.

(** What one run of the walker does to the outside world, in order.
    [LOG::debug_in] calls are diagnostics only and are not recorded. *)
Inductive event : Type :=
| EvPeriodic                                   (* periodic_cb() *)
| EvOpendir (dir_name : string) (ok : bool)    (* opendir(dir_name) *)
| EvIfstream (path : string) (failed : bool)   (* std::ifstream file(path) *)
| EvGetline (path : string)                    (* std::getline(file, line) *)
| EvReaddir (dir_name : string) (ent : dirent) (* readdir(dir) returned ent *)
| EvPush (dir_name : string) (ent : dirent)    (* dirs_stack.emplace(dir_name + "/" + ent->d_name) *)
| EvClosedir (dir_name : string) (status : Z). (* closedir(dir) *)

(** The mutable state of a run: the local [dirs_stack] (top first), the
    member [close_dir_error_count_], and the trace so far.  The member is
    declared in [cgroup_prober.h]; it is kept here as an unbounded
    integer. *)
Record walker : Type := {
  dirs_stack : list string;
  close_dir_error_count_ : Z;
  trace : list event
}.

(** [if (status != 0) close_dir_error_count_++;] *)
Definition count_close (status count : Z) : Z :=
  if status =? 0 then count else count + 1.

(** The test that guards [dirs_stack.emplace] in the [readdir] loop. *)
Definition is_dot (name : string) : bool :=
  ((name =? ".") || (name =? ".."))%string.

Section Run.

Variable fs : filesystem.
Variable file_name : string.

(** [while ((ent = readdir(dir)) != NULL) { ... }] over the entries of
    the stream.  The [continue] for "." and ".." also skips the
    [periodic_cb()] at the end of the body. *)
Fixpoint readdir_loop (dir_name : string) (ents : list dirent)
         (stack : list string) (tr : list event)
  : list string * list event :=
  match ents with
  | [] => (stack, tr)
  | ent :: rest =>
      if d_type ent =? DT_DIR then
        if is_dot (d_name ent) then
          readdir_loop dir_name rest stack (tr ++ [EvReaddir dir_name ent])
        else
          readdir_loop dir_name rest
            (path_join dir_name (d_name ent) :: stack)
            (tr ++ [EvReaddir dir_name ent; EvPush dir_name ent; EvPeriodic])
      else
        readdir_loop dir_name rest stack
          (tr ++ [EvReaddir dir_name ent; EvPeriodic])
  end.

(** One iteration of the outer [while (!dirs_stack.empty())] loop, after
    [dir_name] has been popped and [rest] is what remains of the stack. *)
Definition loop_body (dir_name : string) (rest : list string)
           (count : Z) (tr : list event) : walker :=
  let tr := tr ++ [EvPeriodic] in
  match opendir fs dir_name with
  | None =>
      {| dirs_stack := rest;
         close_dir_error_count_ := count;
         trace := tr ++ [EvOpendir dir_name false] |}
  | Some ents =>
      let path := path_join dir_name file_name in
      if ifstream_fail fs path then
        let status := closedir fs dir_name in
        {| dirs_stack := rest;
           close_dir_error_count_ := count_close status count;
           trace := tr ++ [EvOpendir dir_name true; EvIfstream path true;
                           EvClosedir dir_name status] |}
      else
        let '(stack, tr) :=
          readdir_loop dir_name ents rest
            (tr ++ [EvOpendir dir_name true; EvIfstream path false;
                    EvGetline path]) in
        let status := closedir fs dir_name in
        {| dirs_stack := stack;
           close_dir_error_count_ := count_close status count;
           trace := tr ++ [EvClosedir dir_name status] |}
  end.

(** The loop test followed by one iteration; the identity once the stack
    is empty. *)
Definition step (w : walker) : walker :=
  match dirs_stack w with
  | [] => w
  | dir_name :: rest =>
      loop_body dir_name rest (close_dir_error_count_ w) (trace w)
  end.

(** The state after at most [n] iterations of the outer loop. *)
Fixpoint iterate (n : nat) (w : walker) : walker :=
  match n with
  | O => w
  | S k => iterate k (step w)
  end.

(** The state on entry to the loop: [dirs_stack.emplace(cgroup_dir_name)]. *)
Definition start (cgroup_dir_name : string) (count : Z) : walker :=
  {| dirs_stack := [cgroup_dir_name];
     close_dir_error_count_ := count;
     trace := [] |}.

(** [trigger_existing_cgroup_probe(cgroup_dir_name, file_name, periodic_cb)]
    called on an object whose counter is [count]: the final state when
    the loop exits within [fuel] iterations, [None] otherwise. *)
Definition trigger_existing_cgroup_probe (fuel : nat)
           (cgroup_dir_name : string) (count : Z) : option walker :=
  let w := iterate fuel (start cgroup_dir_name count) in
  match dirs_stack w with
  | [] => Some w
  | _ :: _ => None
  end.

End Run.

(** *** Observations on a trace *)

(** The directories popped and passed to [opendir], in order. *)
Fixpoint opendir_attempts (tr : list event) : list string :=
  match tr with
  | [] => []
  | EvOpendir d _ :: tr' => d :: opendir_attempts tr'
  | _ :: tr' => opendir_attempts tr'
  end.

(** The paths passed to [std::ifstream], in order. *)
Fixpoint ifstream_opens (tr : list event) : list string :=
  match tr with
  | [] => []
  | EvIfstream p _ :: tr' => p :: ifstream_opens tr'
  | _ :: tr' => ifstream_opens tr'
  end.

(** The entries pushed, each with the directory it was read from. *)
Fixpoint pushes (tr : list event) : list (string * dirent) :=
  match tr with
  | [] => []
  | EvPush d e :: tr' => (d, e) :: pushes tr'
  | _ :: tr' => pushes tr'
  end.

(** The statuses returned by [closedir], in order. *)
Fixpoint closedir_statuses (tr : list event) : list Z :=
  match tr with
  | [] => []
  | EvClosedir _ s :: tr' => s :: closedir_statuses tr'
  | _ :: tr' => closedir_statuses tr'
  end.

(** The number of [closedir] calls of a trace that reported failure. *)
Definition failed_closes (tr : list event) : Z :=
  Z.of_nat (List.length (filter (fun s => negb (s =? 0)) (closedir_statuses tr))).

(** A trace with its [closedir] results blanked out. *)
Definition forget_status (e : event) : event :=
  match e with
  | EvClosedir d _ => EvClosedir d 0
  | _ => e
  end.

End Walker.

(** ** Mountpoint locator *)

Module Mountpoint.

(** [static bool file_exists(std::string file_path)] *)
Definition file_exists (fs : filesystem) (file_path : string) : bool :=
  match stat fs file_path with
  | None => false
  | Some st_mode => S_ISREG st_mode
  end.

Definition is_cgroup_v1_mountpoint (fs : filesystem) (dir_path : string) : bool :=
  file_exists fs (dir_path ++ "/cgroup.clone_children").

Definition is_cgroup_v2_mountpoint (fs : filesystem) (dir_path : string) : bool :=
  file_exists fs (dir_path ++ "/cgroup.controllers").

Definition cgroup_v1_mountpoints : list string :=
  ["/hostfs/sys/fs/cgroup/memory"; "/hostfs/cgroup/memory";
   "/sys/fs/cgroup/memory"; "/cgroup/memory"].

Definition cgroup_v2_mountpoints : list string :=
  ["/hostfs/sys/fs/cgroup"; "/sys/fs/cgroup"].

(** [for (auto const &mountpoint : l) if (is_mp(mountpoint)) return mountpoint;
    return std::string();] *)
Fixpoint first_mountpoint (is_mp : string -> bool) (l : list string) : string :=
  match l with
  | [] => EmptyString
  | mountpoint :: rest =>
      if is_mp mountpoint then mountpoint else first_mountpoint is_mp rest
  end.

Definition find_cgroup_v1_mountpoint (fs : filesystem) : string :=
  first_mountpoint (is_cgroup_v1_mountpoint fs) cgroup_v1_mountpoints.

Definition find_cgroup_v2_mountpoint (fs : filesystem) : string :=
  first_mountpoint (is_cgroup_v2_mountpoint fs) cgroup_v2_mountpoints.

(** [c] is the first element of [l] that satisfies [ok], or the empty
    string when no element of [l] does. *)
Inductive first_match (ok : string -> bool) : list string -> string -> Prop :=
| fm_none l :
    Forall (fun c => ok c = false) l ->
    first_match ok l EmptyString
| fm_hit before c after :
    Forall (fun c' => ok c' = false) before ->
    ok c = true ->
    first_match ok (before ++ c :: after) c.

(** "candidate + "/" + marker_file exists and is a regular file". *)
Definition marker_is_regular (fs : filesystem) (marker_file candidate : string) : bool :=
  match stat fs (path_join candidate marker_file) with
  | Some st_mode => Z.land st_mode S_IFMT =? S_IFREG
  | None => false
  end.

End Mountpoint.

(** ** Probe attachment *)

Module Probes.

(** One [(handler, kernel symbol)] alternative. *)
Definition alternative : Type := (string * string)%type.

(** [ProbeAlternatives{desc, {{func_name, k_func_name}, ...}}] as the
    constructor builds it. *)
Record ProbeAlternatives : Type := {
  desc : string;
  func_names : list alternative
}.

(** Modelled from the spec: [ProbeHandler::start_probe(bpf_module,
    ProbeAlternatives)] is defined in [probe_handler.cc], which is not
    among the sources.  Following sections 3 and 4.2: the alternatives are
    attempted strictly in list order, the set is satisfied at the first
    alternative that attaches without error, and it is unsatisfied when
    all of them fail.  [attach handler symbol] tells whether that single
    attachment succeeds; the result is the outcome and the alternatives
    that were attempted, in order. *)
Fixpoint attach_first_success (attach : string -> string -> bool)
         (alternatives : list alternative) : bool * list alternative :=
  match alternatives with
  | [] => (false, [])
  | (handler, symbol) :: later =>
      if attach handler symbol then (true, [(handler, symbol)])
      else
        let '(ok, attempted) := attach_first_success attach later in
        (ok, (handler, symbol) :: attempted)
  end.

Definition start_probe_alternatives (attach : string -> string -> bool)
           (pa : ProbeAlternatives) : bool * list alternative :=
  attach_first_success attach (func_names pa).

End Probes.

(** ** Startup sequencer: the constructor *)

Module Startup.

Import Walker Mountpoint Probes.

(** [std::string::compare]: the common prefix is compared byte by byte as
    unsigned characters, then the lengths decide. *)
Fixpoint string_compare (a b : string) : comparison :=
  match a, b with
  | EmptyString, EmptyString => Eq
  | EmptyString, String _ _ => Lt
  | String _ _, EmptyString => Gt
  | String x a', String y b' =>
      match (N_of_ascii x ?= N_of_ascii y)%N with
      | Eq => string_compare a' b'
      | Lt => Lt
      | Gt => Gt
      end
  end.

(** [operator>=] on [std::string]. *)
Definition string_ge (a b : string) : bool :=
  match string_compare a b with
  | Lt => false
  | _ => true
  end.

(** The field of [HostInfo] the constructor reads.  [HostInfo] is declared
    in [common/host_info.h]; the constructor compares the field with a
    [std::string] through [operator>=], so it is a [std::string] here. *)
Record HostInfo : Type := { kernel_version : string }.

Definition cgroup_v2_first_kernel_version : string := "4.6".

Definition kill_kss_probe_alternatives : ProbeAlternatives :=
  {| desc := "kill css";
     func_names := [("on_kill_css", "kill_css");
                    ("on_kill_css", "css_clear_dir");
                    ("on_cgroup_destroy_locked", "cgroup_destroy_locked")] |}.

Definition css_populate_dir_probe_alternatives : ProbeAlternatives :=
  {| desc := "css populate dir";
     func_names := [("on_css_populate_dir", "css_populate_dir");
                    ("on_cgroup_populate_dir", "cgroup_populate_dir")] |}.

(** The calls the constructor makes on its collaborators, in order.  The
    [bpf_module] argument is passed through unchanged and is left out.
    [ProbeHandler] and the two callbacks are external; each call is taken to
    return to the constructor. *)
Inductive call : Type :=
| StartProbeAlternatives (pa : ProbeAlternatives)  (* probe_handler.start_probe(bpf_module, pa) *)
| StartProbe (handler symbol : string)             (* probe_handler.start_probe(bpf_module, handler, symbol) *)
| StartKretprobe (handler symbol : string)         (* probe_handler.start_kretprobe(bpf_module, handler, symbol) *)
| CleanupProbe (symbol : string)                   (* probe_handler.cleanup_probe(symbol) *)
| CleanupKretprobe (symbol : string)               (* probe_handler.cleanup_kretprobe(symbol) *)
| PeriodicCb                                       (* periodic_cb() *)
| CheckCb (msg : string)                           (* check_cb(msg) *)
| Trigger (cgroup_dir_name file_name : string) (events : list event).
                                                   (* trigger_existing_cgroup_probe(...) and what it did *)

(** The object after construction, with the calls made on the way. *)
Record prober : Type := {
  host_info_ : HostInfo;
  close_dir_error_count : Z;
  calls : list call
}.

Definition is_empty (s : string) : bool := (s =? EmptyString)%string.

Notation "x <- c1 ;; c2" :=
  (match c1 with Some x => c2 | None => None end)
    (at level 61, c1 at next level, right associativity).

(** [CgroupProber::CgroupProber].  The result is [None] when a backfill
    walk does not finish within [fuel] iterations. *)
Definition CgroupProber (fuel : nat) (fs : filesystem) (host_info : HostInfo)
  : option prober :=
  let count := 0 in
  let log :=
    [StartProbeAlternatives kill_kss_probe_alternatives; PeriodicCb;
     StartProbeAlternatives css_populate_dir_probe_alternatives; PeriodicCb;
     StartProbe "on_cgroup_clone_children_read" "cgroup_clone_children_read";
     StartProbe "on_cgroup_attach_task" "cgroup_attach_task";
     PeriodicCb; CheckCb "cgroup prober startup"] in
  let cgroup_v1_mountpoint := find_cgroup_v1_mountpoint fs in
  v1 <- (if negb (is_empty cgroup_v1_mountpoint) then
           w <- trigger_existing_cgroup_probe fs "cgroup.clone_children" fuel
                  cgroup_v1_mountpoint count ;;
           Some (close_dir_error_count_ w,
                 log ++ [Trigger cgroup_v1_mountpoint "cgroup.clone_children" (trace w);
                         CheckCb "trigger_cgroup_clone_children_read()"])
         else Some (count, log)) ;;
  let '(count, log) := v1 in
  let log := log ++ [CleanupProbe "cgroup_clone_children_read"] in
  v2 <- (if string_ge (kernel_version host_info) cgroup_v2_first_kernel_version then
           let log := log ++ [StartProbe "on_cgroup_control" "cgroup_control";
                              StartKretprobe "onret_cgroup_control" "cgroup_control"] in
           let cgroup_v2_mountpoint := find_cgroup_v2_mountpoint fs in
           b <- (if negb (is_empty cgroup_v2_mountpoint) then
                   w <- trigger_existing_cgroup_probe fs "cgroup.controllers" fuel
                          cgroup_v2_mountpoint count ;;
                   Some (close_dir_error_count_ w,
                         log ++ [Trigger cgroup_v2_mountpoint "cgroup.controllers" (trace w);
                                 CheckCb "trigger_cgroup_control()"])
                 else Some (count, log)) ;;
           let '(count, log) := b in
           Some (count, log ++ [CleanupKretprobe "cgroup_control";
                                CleanupProbe "cgroup_control"])
         else Some (count, log)) ;;
  let '(count, log) := v2 in
  Some {| host_info_ := host_info;
          close_dir_error_count := count;
          calls := log ++ [PeriodicCb; CheckCb "cgroup prober cleanup()"] |}.

(** The calls made before the v1 mountpoint is looked up. *)
Definition startup_calls : list call :=
  [StartProbeAlternatives kill_kss_probe_alternatives; PeriodicCb;
   StartProbeAlternatives css_populate_dir_probe_alternatives; PeriodicCb;
   StartProbe "on_cgroup_clone_children_read" "cgroup_clone_children_read";
   StartProbe "on_cgroup_attach_task" "cgroup_attach_task";
   PeriodicCb; CheckCb "cgroup prober startup"].

(** *** Classifying the calls *)

(** The detach of the v1 existing-trigger probe. *)
Definition v1_detach : call := CleanupProbe "cgroup_clone_children_read".

Definition is_v1_detach (c : call) : bool :=
  match c with
  | CleanupProbe symbol => (symbol =? "cgroup_clone_children_read")%string
  | _ => false
  end.

(** The calls of the v1 backfill phase. *)
Definition is_v1_backfill (c : call) : bool :=
  match c with
  | Trigger _ file_name _ => (file_name =? "cgroup.clone_children")%string
  | CheckCb msg => (msg =? "trigger_cgroup_clone_children_read()")%string
  | _ => false
  end.

(** The calls of the cgroup v2 phase: attaching and detaching the
    [cgroup_control] probes, and the v2 backfill. *)
Definition is_v2_phase (c : call) : bool :=
  match c with
  | StartProbe _ symbol | StartKretprobe _ symbol
  | CleanupProbe symbol | CleanupKretprobe symbol =>
      (symbol =? "cgroup_control")%string
  | Trigger _ file_name _ => (file_name =? "cgroup.controllers")%string
  | CheckCb msg => (msg =? "trigger_cgroup_control()")%string
  | _ => false
  end.

(** The failed [closedir] calls of all backfill walks of a call log. *)
Fixpoint calls_failed_closes (l : list call) : Z :=
  match l with
  | [] => 0
  | Trigger _ _ events :: l' => failed_closes events + calls_failed_closes l'
  | _ :: l' => calls_failed_closes l'
  end.

(** *** Kernel versions as numbers *)

Definition digit_of (c : ascii) : option N :=
  let n := N_of_ascii c in
  if ((48 <=? n) && (n <=? 57))%N then Some (n - 48)%N else None.

(** The decimal number a string starts with, and what follows it. *)
Fixpoint leading_number (acc : N) (s : string) : N * string :=
  match s with
  | EmptyString => (acc, EmptyString)
  | String c s' =>
      match digit_of c with
      | Some d => leading_number (10 * acc + d)%N s'
      | None => (acc, s)
      end
  end.

(** The [(major, minor)] pair of a release string such as ["4.10.0-42"]. *)
Definition major_minor (release : string) : N * N :=
  let '(major, after) := leading_number 0%N release in
  match after with
  | String "." s' => (major, fst (leading_number 0%N s'))
  | _ => (major, 0%N)
  end.

(** The ordering of versions as numbers: [4.10] is above [4.6]. *)
Definition version_at_least (v min : N * N) : bool :=
  ((fst min <? fst v) || ((fst v =? fst min) && (snd min <=? snd v)))%N.

(** What the gate is meant to decide: the host kernel is 4.6 or newer. *)
Definition kernel_supports_cgroup_v2 (release : string) : bool :=
  version_at_least (major_minor release) (4%N, 6%N).

End Startup.

(** ** Finite directory trees *)

Module Tree.

Import Walker.

(** A directory: whether [opendir] succeeds on it, whether its marker file
    opens, and the entries [readdir] reports, each with the directory it
    denotes when it denotes one.  The reported [d_type] is independent of
    what the entry denotes: a subdirectory may be reported as
    [DT_UNKNOWN], and a symbolic link to a directory as [DT_LNK]. *)
#[local] Set Warnings "-register-all".
Inductive fs_tree : Type :=
| Dir (opens marker : bool) (ents : list (dirent * option fs_tree)).

(** The condition under which the [readdir] loop pushes an entry. *)
Definition is_pushed (e : dirent) : bool :=
  (d_type e =? DT_DIR) && negb (is_dot (d_name e)).

(** Number of directories of a tree. *)
Fixpoint size (t : fs_tree) : nat :=
  match t with
  | Dir _ _ ents =>
      S (list_sum (map (fun es : dirent * option fs_tree =>
                          let '(_, sub) := es in
                          match sub with Some t' => size t' | None => O end)
                       ents))
  end.

(** The paths of all directories of the tree rooted at [path]. *)
Fixpoint directories (path : string) (t : fs_tree) : list string :=
  match t with
  | Dir _ _ ents =>
      path :: concat (map (fun es : dirent * option fs_tree =>
                             let '(e, sub) := es in
                             match sub with
                             | Some t' => directories (path_join path (d_name e)) t'
                             | None => []
                             end)
                          ents)
  end.

(** The directories a walk from [path] pops, in the order the stack yields
    them: a directory is reached from its parent when the parent opens,
    the parent's marker file opens, and the entry is reported as [DT_DIR]
    and is neither "." nor "..".  The entry pushed last is popped first. *)
Fixpoint walked (path : string) (t : fs_tree) : list string :=
  match t with
  | Dir opens marker ents =>
      path ::
      (if opens && marker then
         concat (rev (map (fun es : dirent * option fs_tree =>
                             let '(e, sub) := es in
                             if is_pushed e then
                               match sub with
                               | Some t' => walked (path_join path (d_name e)) t'
                               | None => []
                               end
                             else [])
                          ents))
       else [])
  end.

(** Every entry that the walker would push denotes a directory of the
    tree (one that has vanished since is a directory that does not open). *)
Fixpoint well_formed (t : fs_tree) : bool :=
  match t with
  | Dir _ _ ents =>
      forallb (fun es : dirent * option fs_tree =>
                 let '(e, sub) := es in
                 match sub with
                 | Some t' => well_formed t'
                 | None => negb (is_pushed e)
                 end)
              ents
  end.

(** Every directory opens, every marker file opens, and every entry that
    denotes a directory is reported as [DT_DIR] under a name other than
    "." and "..". *)
Fixpoint cooperative (t : fs_tree) : bool :=
  match t with
  | Dir opens marker ents =>
      opens && marker &&
      forallb (fun es : dirent * option fs_tree =>
                 let '(e, sub) := es in
                 match sub with
                 | Some t' => is_pushed e && cooperative t'
                 | None => true
                 end)
              ents
  end.

(** The filesystem [fs] looks like the tree [t] at [path], for the marker
    file name [file_name]. *)
Inductive models (fs : filesystem) (file_name : string)
  : string -> fs_tree -> Prop :=
| models_Dir (path : string) (opens marker : bool)
             (ents : list (dirent * option fs_tree)) :
    opendir fs path = (if opens then Some (map fst ents) else None) ->
    ifstream_fail fs (path_join path file_name) = negb marker ->
    (forall e t', In (e, Some t') ents ->
                  models fs file_name (path_join path (d_name e)) t') ->
    models fs file_name path (Dir opens marker ents).

(** The contribution of one entry to [size], [directories] and [walked]. *)
Definition size_entry (es : dirent * option fs_tree) : nat :=
  let '(_, sub) := es in
  match sub with Some t' => size t' | None => O end.

Definition directories_entry (path : string) (es : dirent * option fs_tree)
  : list string :=
  let '(e, sub) := es in
  match sub with
  | Some t' => directories (path_join path (d_name e)) t'
  | None => []
  end.

Definition walked_entry (path : string) (es : dirent * option fs_tree)
  : list string :=
  let '(e, sub) := es in
  if is_pushed e then
    match sub with
    | Some t' => walked (path_join path (d_name e)) t'
    | None => []
    end
  else [].

(** The stack item a pushed entry gives rise to, with the tree it denotes. *)
Definition child_item (path : string) (es : dirent * option fs_tree)
  : list (string * fs_tree) :=
  let '(e, sub) := es in
  if is_pushed e then
    match sub with
    | Some t' => [(path_join path (d_name e), t')]
    | None => []
    end
  else [].

(** The stack items a visit of [path] leaves on top of the stack: the
    pushed entries, last pushed first. *)
Definition child_items (path : string) (ents : list (dirent * option fs_tree))
  : list (string * fs_tree) :=
  rev (flat_map (child_item path) ents).

Definition forest_walked (items : list (string * fs_tree)) : list string :=
  flat_map (fun pt : string * fs_tree => walked (fst pt) (snd pt)) items.

Definition forest_size (items : list (string * fs_tree)) : nat :=
  list_sum (map (fun pt : string * fs_tree => size (snd pt)) items).

End Tree.

(** ** Events of the [readdir] loop, entry by entry *)

Module Events.

Import Walker Tree.

(** What the body of the [readdir] loop records for one entry. *)
Definition entry_events (dir_name : string) (ent : dirent) : list event :=
  if d_type ent =? DT_DIR then
    if is_dot (d_name ent) then [EvReaddir dir_name ent]
    else [EvReaddir dir_name ent; EvPush dir_name ent; EvPeriodic]
  else [EvReaddir dir_name ent; EvPeriodic].

Definition readdir_events (dir_name : string) (ents : list dirent) : list event :=
  flat_map (entry_events dir_name) ents.

(** The paths the [readdir] loop pushes for a directory, in push order. *)
Definition pushed_paths (dir_name : string) (ents : list dirent) : list string :=
  map (fun e => path_join dir_name (d_name e)) (filter is_pushed ents).

(** The events one iteration of the outer loop records for [dir_name]. *)
Definition body_events (fs : filesystem) (file_name dir_name : string) : list event :=
  EvPeriodic ::
  match opendir fs dir_name with
  | None => [EvOpendir dir_name false]
  | Some ents =>
      let path := path_join dir_name file_name in
      if ifstream_fail fs path then
        [EvOpendir dir_name true; EvIfstream path true;
         EvClosedir dir_name (closedir fs dir_name)]
      else
        [EvOpendir dir_name true; EvIfstream path false; EvGetline path]
          ++ readdir_events dir_name ents
          ++ [EvClosedir dir_name (closedir fs dir_name)]
  end.

(** The paths one iteration of the outer loop leaves on top of the stack. *)
Definition body_stack (fs : filesystem) (file_name dir_name : string) : list string :=
  match opendir fs dir_name with
  | None => []
  | Some ents =>
      if ifstream_fail fs (path_join dir_name file_name) then []
      else rev (pushed_paths dir_name ents)
  end.

(** A push the code allows: reported as a directory, not "." or "..". *)
Definition good_push (de : string * dirent) : Prop :=
  d_type (snd de) = DT_DIR /\ d_name (snd de) <> "." /\ d_name (snd de) <> "..".

(** Every path on the stack or already popped is the root or was pushed
    for an entry recorded in the trace. *)
Definition accounted (root : string) (w : walker) : Prop :=
  forall p, In p (dirs_stack w) \/ In p (opendir_attempts (trace w)) ->
            p = root \/
            exists d e, In (d, e) (pushes (trace w)) /\ p = path_join d (d_name e).

(** The same filesystem with other [closedir] results. *)
Definition with_closedir (fs : filesystem) (f : string -> Z) : filesystem :=
  {| opendir := opendir fs;
     ifstream_fail := ifstream_fail fs;
     closedir := f;
     stat := stat fs |}.

End Events.

(** ** Concrete filesystems *)

Module Scenario.

Import Walker Tree Startup.

Definition dot : dirent := {| d_type := DT_DIR; d_name := "." |}.
Definition dotdot : dirent := {| d_type := DT_DIR; d_name := ".." |}.
Definition subdir (name : string) : dirent := {| d_type := DT_DIR; d_name := name |}.
Definition regular (name : string) : dirent := {| d_type := DT_REG; d_name := name |}.

(** [st_mode] of a directory with mode 0755 and of a regular file with
    mode 0644. *)
Definition mode_dir : Z := 16877.
Definition mode_file : Z := 33188.

Definition one_of (p : string) (l : list string) : bool :=
  existsb (String.eqb p) l.

(** [/t/cgA] with the single subdirectory [/t/cgA/cgA1]; both hold a
    readable regular file [cgroup.clone_children]; every close succeeds. *)
Definition cgA_fs : filesystem :=
  {| opendir := fun p =>
       if (p =? "/t/cgA")%string then
         Some [dot; dotdot; regular "cgroup.clone_children"; subdir "cgA1"]
       else if (p =? "/t/cgA/cgA1")%string then
         Some [dot; dotdot; regular "cgroup.clone_children"]
       else None;
     ifstream_fail := fun p =>
       negb (one_of p ["/t/cgA/cgroup.clone_children";
                       "/t/cgA/cgA1/cgroup.clone_children"]);
     closedir := fun _ => 0;
     stat := fun p =>
       if one_of p ["/t/cgA"; "/t/cgA/cgA1"] then Some mode_dir
       else if one_of p ["/t/cgA/cgroup.clone_children";
                         "/t/cgA/cgA1/cgroup.clone_children"] then Some mode_file
       else None |}.

Definition cgA_tree : fs_tree :=
  Dir true true
      [(dot, None); (dotdot, None); (regular "cgroup.clone_children", None);
       (subdir "cgA1",
        Some (Dir true true
                  [(dot, None); (dotdot, None);
                   (regular "cgroup.clone_children", None)]))].

(** The same two directories, but [/t/cgA] has no marker file. *)
Definition unmarked_root_fs : filesystem :=
  {| opendir := fun p =>
       if (p =? "/t/cgA")%string then Some [dot; dotdot; subdir "cgA1"]
       else if (p =? "/t/cgA/cgA1")%string then
         Some [dot; dotdot; regular "cgroup.clone_children"]
       else None;
     ifstream_fail := fun p =>
       negb (p =? "/t/cgA/cgA1/cgroup.clone_children")%string;
     closedir := fun _ => 0;
     stat := fun p =>
       if one_of p ["/t/cgA"; "/t/cgA/cgA1"] then Some mode_dir
       else if (p =? "/t/cgA/cgA1/cgroup.clone_children")%string then Some mode_file
       else None |}.

Definition unmarked_root_tree : fs_tree :=
  Dir true false
      [(dot, None); (dotdot, None);
       (subdir "cgA1",
        Some (Dir true true
                  [(dot, None); (dotdot, None);
                   (regular "cgroup.clone_children", None)]))].

(** [/t/cgB] holds three directories that all open and all have a marker
    file: [real] is reported as [DT_DIR], [link] is a symbolic link to a
    directory and is reported as [DT_LNK], and [unk] is reported as
    [DT_UNKNOWN]. *)
Definition typed_fs : filesystem :=
  {| opendir := fun p =>
       if (p =? "/t/cgB")%string then
         Some [dot; dotdot; regular "cgroup.clone_children";
               {| d_type := DT_LNK; d_name := "link" |};
               {| d_type := DT_UNKNOWN; d_name := "unk" |};
               subdir "real"]
       else if one_of p ["/t/cgB/link"; "/t/cgB/unk"; "/t/cgB/real"] then
         Some [dot; dotdot; regular "cgroup.clone_children"]
       else None;
     ifstream_fail := fun p =>
       negb (one_of p ["/t/cgB/cgroup.clone_children";
                       "/t/cgB/link/cgroup.clone_children";
                       "/t/cgB/unk/cgroup.clone_children";
                       "/t/cgB/real/cgroup.clone_children"]);
     closedir := fun _ => 0;
     stat := fun _ => None |}.

(** Of the four v1 candidates only the third, [/sys/fs/cgroup/memory],
    holds a regular file [cgroup.clone_children]; the first candidate
    exists but holds a directory of that name. *)
Definition only_third_fs : filesystem :=
  {| opendir := fun _ => None;
     ifstream_fail := fun _ => true;
     closedir := fun _ => 0;
     stat := fun p =>
       if (p =? "/sys/fs/cgroup/memory/cgroup.clone_children")%string then Some mode_file
       else if one_of p ["/hostfs/sys/fs/cgroup/memory";
                         "/hostfs/sys/fs/cgroup/memory/cgroup.clone_children";
                         "/sys/fs/cgroup/memory"] then Some mode_dir
       else None |}.

(** A hybrid host: a v1 hierarchy at [/cgroup/memory] with one cgroup
    [docker], a v2 hierarchy at [/sys/fs/cgroup] with one cgroup
    [system.slice]; closing [/cgroup/memory/docker] fails. *)
Definition hybrid_fs : filesystem :=
  {| opendir := fun p =>
       if (p =? "/cgroup/memory")%string then
         Some [dot; dotdot; regular "cgroup.clone_children"; subdir "docker"]
       else if (p =? "/cgroup/memory/docker")%string then
         Some [dot; dotdot; regular "cgroup.clone_children"]
       else if (p =? "/sys/fs/cgroup")%string then
         Some [dot; dotdot; regular "cgroup.controllers"; subdir "system.slice"]
       else if (p =? "/sys/fs/cgroup/system.slice")%string then
         Some [dot; dotdot; regular "cgroup.controllers"]
       else None;
     ifstream_fail := fun p =>
       negb (one_of p ["/cgroup/memory/cgroup.clone_children";
                       "/cgroup/memory/docker/cgroup.clone_children";
                       "/sys/fs/cgroup/cgroup.controllers";
                       "/sys/fs/cgroup/system.slice/cgroup.controllers"]);
     closedir := fun p => if (p =? "/cgroup/memory/docker")%string then (-1) else 0;
     stat := fun p =>
       if one_of p ["/cgroup/memory/cgroup.clone_children";
                    "/cgroup/memory/docker/cgroup.clone_children";
                    "/sys/fs/cgroup/cgroup.controllers";
                    "/sys/fs/cgroup/system.slice/cgroup.controllers"] then Some mode_file
       else if one_of p ["/cgroup/memory"; "/cgroup/memory/docker";
                         "/sys/fs/cgroup"; "/sys/fs/cgroup/system.slice"] then Some mode_dir
       else None |}.

(** An attachment oracle under which [kill_css] cannot be instrumented
    and [css_clear_dir] can. *)
Definition jammy_attach (handler symbol : string) : bool :=
  negb (symbol =? "kill_css")%string.

End Scenario.

(** ** The two claims that the code does not satisfy, as they are worded *)

Module Worded.

Import Walker Tree.

(** "If a node's marker file cannot be opened, the walker still enumerates
    and stacks that node's subdirectories." *)
Definition marker_failure_still_descends : Prop :=
  forall (fs : filesystem) (file_name dir_name : string) (rest : list string)
         (count : Z) (tr : list event) (ents : list dirent) (e : dirent),
    opendir fs dir_name = Some ents ->
    ifstream_fail fs (path_join dir_name file_name) = true ->
    In e ents ->
    d_type e = DT_DIR -> d_name e <> "." -> d_name e <> ".." ->
    let w := loop_body fs file_name dir_name rest count tr in
    In (EvReaddir dir_name e) (trace w) /\
    In (path_join dir_name (d_name e)) (dirs_stack w).

(** "For all hierarchies with N total directory nodes reachable from a
    root, the walker visits every node exactly once, regardless of tree
    shape." *)
Definition visits_every_directory_once : Prop :=
  forall (fs : filesystem) (file_name root : string) (t : fs_tree) (count : Z),
    models fs file_name root t ->
    well_formed t = true ->
    NoDup (directories root t) ->
    exists fuel w,
      trigger_existing_cgroup_probe fs file_name fuel root count = Some w /\
      forall p, In p (directories root t) ->
                count_occ string_dec (opendir_attempts (trace w)) p = 1%nat.

End Worded.

(** ** Further observations on runs *)

Module Observe.

Import Walker Tree Events Mountpoint Startup.

(** The directories on which [opendir] succeeded, in order. *)
Definition opened_dirs (tr : list event) : list string :=
  flat_map (fun e => match e with EvOpendir d true => [d] | _ => [] end) tr.

(** The directories passed to [closedir], in order. *)
Definition closed_dirs (tr : list event) : list string :=
  flat_map (fun e => match e with EvClosedir d _ => [d] | _ => [] end) tr.

(** The marker files from which [std::getline] read a line, in order. *)
Definition getlines (tr : list event) : list string :=
  flat_map (fun e => match e with EvGetline p => [p] | _ => [] end) tr.

(** The entries [readdir] returned, in order. *)
Definition readdirs (tr : list event) : list dirent :=
  flat_map (fun e => match e with EvReaddir _ ent => [ent] | _ => [] end) tr.

(** The number of [periodic_cb()] calls. *)
Definition periodic_calls (tr : list event) : nat :=
  List.length (filter (fun e => match e with EvPeriodic => true | _ => false end) tr).

(** The entries on which the [readdir] loop takes its [continue]. *)
Definition skips_periodic (e : dirent) : bool :=
  (d_type e =? DT_DIR) && is_dot (d_name e).

(** The path [dirs_stack.emplace] receives for a recorded push. *)
Definition pushed_path (de : string * dirent) : string :=
  path_join (fst de) (d_name (snd de)).

(** [opendir] succeeds on [d]. *)
Definition opens (fs : filesystem) (d : string) : bool :=
  match opendir fs d with Some _ => true | None => false end.

(** The entries of the directory stream of [d]; none when [d] does not open. *)
Definition entries (fs : filesystem) (d : string) : list dirent :=
  match opendir fs d with Some ents => ents | None => [] end.

(** [d] opens and so does its marker file. *)
Definition marker_read (fs : filesystem) (file_name d : string) : bool :=
  opens fs d && negb (ifstream_fail fs (path_join d file_name)).


(** An iteration budget for a walk that can still descend [depth] characters
    of path and pushes at most [width] entries per directory. *)
Fixpoint budget (width depth : nat) : nat :=
  match depth with
  | O => 1
  | S depth' => 1 + width * budget width depth'
  end.

(** The budget of a stacked path when no path longer than [max_len] opens. *)
Definition weight (max_len width : nat) (p : string) : nat :=
  budget width (max_len + 1 - String.length p).

Definition stack_weight (max_len width : nat) (stack : list string) : nat :=
  list_sum (map (weight max_len width) stack).

(** The remaining file types of [st_mode]. *)
Definition S_IFIFO : Z := 4096.    (* 0010000 *)
Definition S_IFCHR : Z := 8192.    (* 0020000 *)
Definition S_IFBLK : Z := 24576.   (* 0060000 *)
Definition S_IFLNK : Z := 40960.   (* 0120000 *)
Definition S_IFSOCK : Z := 49152.  (* 0140000 *)

(** The test of the constructor's version gate. *)
Definition gate (host_info : HostInfo) : bool :=
  string_ge (kernel_version host_info) cgroup_v2_first_kernel_version.

(** The calls that attach a probe, and those that detach one. *)
Definition is_attach (c : call) : bool :=
  match c with
  | StartProbeAlternatives _ | StartProbe _ _ | StartKretprobe _ _ => true
  | _ => false
  end.

Definition is_detach (c : call) : bool :=
  match c with
  | CleanupProbe _ | CleanupKretprobe _ => true
  | _ => false
  end.

(** The backfill walks of a call log: root and marker file name. *)
Definition walks (l : list call) : list (string * string) :=
  flat_map (fun c => match c with
                     | Trigger root file_name _ => [(root, file_name)]
                     | _ => []
                     end) l.

(** The character of a decimal digit. *)
Definition digit_char (n : N) : ascii := ascii_of_N (48 + n).

Definition starts_with_digit (s : string) : bool :=
  match s with
  | String c _ => match digit_of c with Some _ => true | None => false end
  | EmptyString => false
  end.

End Observe.

Import Walker Tree Events Mountpoint Probes Startup Observe.

(** Exhibits the calls of a finished constructor run as [before], the v1
    detach, and the rest, and checks the two sides call by call. *)
Ltac split_calls before :=
  eexists; exists before; eexists;
  split; [reflexivity|];
  split; [reflexivity|];
  split; [repeat constructor|];
  split; [repeat constructor|].

(** Runs the constructor symbolically: splits on both mountpoint tests, on
    the version gate and on the outcome of both walks, and names the
    finished object. *)
Ltac run_constructor fs host_info fuel H p :=
  unfold CgroupProber in H; fold (gate host_info) in H;
  destruct (is_empty (find_cgroup_v1_mountpoint fs)) eqn:?E1;
  cbn [negb] in H;
  [|destruct (trigger_existing_cgroup_probe fs "cgroup.clone_children" fuel
               (find_cgroup_v1_mountpoint fs) 0) as [?w1|]; [|discriminate H]];
  (destruct (gate host_info) eqn:?Eg;
   [destruct (is_empty (find_cgroup_v2_mountpoint fs)) eqn:?E2;
    cbn [negb] in H;
    [|match type of H with
      | context [trigger_existing_cgroup_probe fs "cgroup.controllers" fuel ?r ?c] =>
          destruct (trigger_existing_cgroup_probe fs "cgroup.controllers" fuel r c)
            as [?w2|]; [|discriminate H]
      end]|]);
  inversion H; subst p; clear H.

(** * Properties *)

(** ** Traces *)

Lemma opendir_attempts_app (a b : list event) :
  opendir_attempts (a ++ b) = opendir_attempts a ++ opendir_attempts b.
Proof.
  induction a as [|e a IH]; simpl; [reflexivity|].
  destruct e; simpl; rewrite IH; reflexivity.
Qed.

Lemma ifstream_opens_app (a b : list event) :
  ifstream_opens (a ++ b) = ifstream_opens a ++ ifstream_opens b.
Proof.
  induction a as [|e a IH]; simpl; [reflexivity|].
  destruct e; simpl; rewrite IH; reflexivity.
Qed.

Lemma pushes_app (a b : list event) :
  pushes (a ++ b) = pushes a ++ pushes b.
Proof.
  induction a as [|e a IH]; simpl; [reflexivity|].
  destruct e; simpl; rewrite IH; reflexivity.
Qed.

Lemma closedir_statuses_app (a b : list event) :
  closedir_statuses (a ++ b) = closedir_statuses a ++ closedir_statuses b.
Proof.
  induction a as [|e a IH]; simpl; [reflexivity|].
  destruct e; simpl; rewrite IH; reflexivity.
Qed.

Lemma failed_closes_app (a b : list event) :
  failed_closes (a ++ b) = failed_closes a + failed_closes b.
Proof.
  unfold failed_closes.
  rewrite closedir_statuses_app, filter_app, length_app. lia.
Qed.

Lemma failed_closes_nonneg (a : list event) : 0 <= failed_closes a.
Proof. unfold failed_closes. lia. Qed.

(** ** The [readdir] loop *)

Lemma readdir_loop_eq (d : string) (ents : list dirent) :
  forall (st : list string) (tr : list event),
    readdir_loop d ents st tr
    = (rev (pushed_paths d ents) ++ st, tr ++ readdir_events d ents).
Proof.
  induction ents as [|e ents IH]; intros st tr.
  - simpl. rewrite app_nil_r. reflexivity.
  - simpl readdir_loop. unfold pushed_paths, readdir_events in *.
    simpl. unfold entry_events, is_pushed.
    destruct (d_type e =? DT_DIR); simpl.
    + destruct (is_dot (d_name e)); simpl; rewrite IH.
      * rewrite <- app_assoc. reflexivity.
      * rewrite <- !app_assoc. reflexivity.
    + rewrite IH, <- app_assoc. reflexivity.
Qed.

Lemma readdir_events_pushes (d : string) (ents : list dirent) :
  pushes (readdir_events d ents) = map (pair d) (filter is_pushed ents).
Proof.
  unfold readdir_events.
  induction ents as [|e ents IH]; simpl; [reflexivity|].
  rewrite pushes_app, IH. unfold entry_events, is_pushed.
  destruct (d_type e =? DT_DIR); simpl; [|reflexivity].
  destruct (is_dot (d_name e)); reflexivity.
Qed.

Lemma readdir_events_opendir (d : string) (ents : list dirent) :
  opendir_attempts (readdir_events d ents) = [].
Proof.
  unfold readdir_events.
  induction ents as [|e ents IH]; simpl; [reflexivity|].
  rewrite opendir_attempts_app, IH. unfold entry_events.
  destruct (d_type e =? DT_DIR); [destruct (is_dot (d_name e))|]; reflexivity.
Qed.

Lemma readdir_events_ifstream (d : string) (ents : list dirent) :
  ifstream_opens (readdir_events d ents) = [].
Proof.
  unfold readdir_events.
  induction ents as [|e ents IH]; simpl; [reflexivity|].
  rewrite ifstream_opens_app, IH. unfold entry_events.
  destruct (d_type e =? DT_DIR); [destruct (is_dot (d_name e))|]; reflexivity.
Qed.

Lemma readdir_events_closedir (d : string) (ents : list dirent) :
  closedir_statuses (readdir_events d ents) = [].
Proof.
  unfold readdir_events.
  induction ents as [|e ents IH]; simpl; [reflexivity|].
  rewrite closedir_statuses_app, IH. unfold entry_events.
  destruct (d_type e =? DT_DIR); [destruct (is_dot (d_name e))|]; reflexivity.
Qed.

Lemma readdir_events_forget (d : string) (ents : list dirent) :
  map forget_status (readdir_events d ents) = readdir_events d ents.
Proof.
  unfold readdir_events.
  induction ents as [|e ents IH]; simpl; [reflexivity|].
  rewrite map_app, IH. f_equal. unfold entry_events.
  destruct (d_type e =? DT_DIR); [destruct (is_dot (d_name e))|]; reflexivity.
Qed.

Lemma is_dot_false (name : string) :
  is_dot name = false <-> name <> "." /\ name <> "..".
Proof.
  unfold is_dot. rewrite orb_false_iff, !String.eqb_neq. tauto.
Qed.

Lemma is_pushed_good (d : string) (e : dirent) :
  is_pushed e = true <-> good_push (d, e).
Proof.
  unfold is_pushed, good_push. simpl.
  rewrite andb_true_iff, negb_true_iff, is_dot_false, Z.eqb_eq. tauto.
Qed.

(** ** One iteration of the outer loop *)

Lemma count_close_failed (d : string) (status count : Z) :
  count_close status count = count + failed_closes [EvClosedir d status].
Proof.
  unfold count_close, failed_closes. simpl.
  destruct (status =? 0); simpl; lia.
Qed.

Lemma loop_body_eq (fs : filesystem) (file_name d : string)
      (rest : list string) (count : Z) (tr : list event) :
  loop_body fs file_name d rest count tr
  = {| dirs_stack := body_stack fs file_name d ++ rest;
       close_dir_error_count_ := count + failed_closes (body_events fs file_name d);
       trace := tr ++ body_events fs file_name d |}.
Proof.
  unfold loop_body, body_stack, body_events.
  destruct (opendir fs d) as [ents|].
  - destruct (ifstream_fail fs (path_join d file_name)).
    + rewrite (count_close_failed d). simpl.
      rewrite <- app_assoc. reflexivity.
    + rewrite readdir_loop_eq.
      rewrite (count_close_failed d).
      f_equal.
      * change (EvPeriodic :: ?l) with ([EvPeriodic] ++ l).
        rewrite !failed_closes_app.
        unfold failed_closes at 2 3 4. rewrite readdir_events_closedir.
        simpl. lia.
      * simpl. rewrite <- !app_assoc. reflexivity.
  - simpl. rewrite <- app_assoc. f_equal. unfold failed_closes. simpl. lia.
Qed.

Lemma step_eq (fs : filesystem) (file_name : string) (w : walker) :
  step fs file_name w
  = match dirs_stack w with
    | [] => w
    | d :: rest =>
        {| dirs_stack := body_stack fs file_name d ++ rest;
           close_dir_error_count_ :=
             close_dir_error_count_ w + failed_closes (body_events fs file_name d);
           trace := trace w ++ body_events fs file_name d |}
    end.
Proof.
  unfold step. destruct (dirs_stack w); [reflexivity|apply loop_body_eq].
Qed.

Lemma body_events_pushes (fs : filesystem) (file_name d : string) :
  Forall good_push (pushes (body_events fs file_name d)).
Proof.
  unfold body_events.
  destruct (opendir fs d) as [ents|]; simpl; [|constructor].
  destruct (ifstream_fail fs (path_join d file_name)); simpl; [constructor|].
  rewrite pushes_app, readdir_events_pushes. simpl. rewrite app_nil_r.
  apply Forall_forall. intros [d' e] Hin.
  apply in_map_iff in Hin. destruct Hin as [e' [Heq Hin]].
  inversion Heq; subst. apply filter_In in Hin.
  apply (is_pushed_good d'), Hin.
Qed.

Lemma body_stack_pushed (fs : filesystem) (file_name d p : string) :
  In p (body_stack fs file_name d) ->
  exists e, In (d, e) (pushes (body_events fs file_name d)) /\ p = path_join d (d_name e).
Proof.
  unfold body_stack, body_events.
  destruct (opendir fs d) as [ents|]; simpl; [|tauto].
  destruct (ifstream_fail fs (path_join d file_name)); simpl; [tauto|].
  intros Hin. apply in_rev in Hin. unfold pushed_paths in Hin.
  apply in_map_iff in Hin. destruct Hin as [e [Hp Hin]].
  exists e. split; [|symmetry; exact Hp].
  rewrite pushes_app, readdir_events_pushes. apply in_or_app. left.
  apply in_map. exact Hin.
Qed.

Lemma body_events_opendir (fs : filesystem) (file_name d : string) :
  opendir_attempts (body_events fs file_name d) = [d].
Proof.
  unfold body_events.
  destruct (opendir fs d) as [ents|]; simpl; [|reflexivity].
  destruct (ifstream_fail fs (path_join d file_name)); simpl; [reflexivity|].
  rewrite opendir_attempts_app, readdir_events_opendir. reflexivity.
Qed.

(** ** Runs of the outer loop *)

Lemma iterate_plus (fs : filesystem) (file_name : string) (n k : nat) :
  forall w, iterate fs file_name (n + k) w
            = iterate fs file_name k (iterate fs file_name n w).
Proof.
  induction n as [|n IH]; intros w; simpl; [reflexivity|apply IH].
Qed.

Lemma iterate_empty (fs : filesystem) (file_name : string) (n : nat) :
  forall w, dirs_stack w = [] -> iterate fs file_name n w = w.
Proof.
  induction n as [|n IH]; intros w H; simpl; [reflexivity|].
  unfold step. rewrite H. apply IH, H.
Qed.

(** A run only appends to the trace, and the counter grows by the number of
    failed closes among the appended events. *)
Lemma iterate_extends (fs : filesystem) (file_name : string) (n : nat) :
  forall w, exists new,
    trace (iterate fs file_name n w) = trace w ++ new /\
    close_dir_error_count_ (iterate fs file_name n w)
    = close_dir_error_count_ w + failed_closes new.
Proof.
  induction n as [|n IH]; intros w; simpl.
  - exists []. rewrite app_nil_r. unfold failed_closes. simpl. split; [reflexivity|lia].
  - destruct (IH (step fs file_name w)) as [new [Ht Hc]].
    rewrite Ht, Hc, step_eq.
    destruct (dirs_stack w) as [|d rest]; simpl.
    + exists new. split; reflexivity.
    + exists (body_events fs file_name d ++ new).
      rewrite failed_closes_app, app_assoc. split; [reflexivity|lia].
Qed.

Lemma iterate_good_pushes (fs : filesystem) (file_name : string) (n : nat) :
  forall w, Forall good_push (pushes (trace w)) ->
            Forall good_push (pushes (trace (iterate fs file_name n w))).
Proof.
  induction n as [|n IH]; intros w H; simpl; [exact H|].
  apply IH. rewrite step_eq.
  destruct (dirs_stack w) as [|d rest]; simpl; [exact H|].
  rewrite pushes_app. apply Forall_app. split; [exact H|apply body_events_pushes].
Qed.

Lemma iterate_accounted (fs : filesystem) (file_name root : string) (n : nat) :
  forall w, accounted root w -> accounted root (iterate fs file_name n w).
Proof.
  induction n as [|n IH]; intros w H; simpl; [exact H|].
  apply IH. rewrite step_eq.
  destruct (dirs_stack w) as [|d rest] eqn:Hst; [exact H|].
  unfold accounted in *. simpl. intros p Hp.
  rewrite Hst in H.
  assert (Hold : forall q, In q (d :: rest) \/ In q (opendir_attempts (trace w)) ->
            q = root \/
            exists d0 e, In (d0, e) (pushes (trace w ++ body_events fs file_name d))
                         /\ q = path_join d0 (d_name e)).
  { intros q Hq. destruct (H q Hq) as [Hr|[d0 [e [Hin Heq]]]]; [left; exact Hr|].
    right. exists d0, e. rewrite pushes_app. split; [apply in_or_app; left; exact Hin|exact Heq]. }
  rewrite opendir_attempts_app, body_events_opendir in Hp.
  destruct Hp as [Hp|Hp].
  - apply in_app_or in Hp. destruct Hp as [Hp|Hp].
    + right. apply body_stack_pushed in Hp. destruct Hp as [e [Hin Heq]].
      exists d, e. rewrite pushes_app. split; [apply in_or_app; right; exact Hin|exact Heq].
    + apply Hold. left. right. exact Hp.
  - apply in_app_or in Hp. destruct Hp as [Hp|Hp].
    + apply Hold. right. exact Hp.
    + simpl in Hp. destruct Hp as [Hp|[]]. subst p. apply Hold. left. left. reflexivity.
Qed.

Lemma start_accounted (root : string) (count : Z) : accounted root (start root count).
Proof.
  unfold accounted, start. simpl. intros p [[Hp|[]]|[]]. left. symmetry. exact Hp.
Qed.

(** [closedir] results influence neither the stack nor what else is done. *)
Lemma iterate_closedir_irrelevant (fs : filesystem) (file_name : string)
      (f : string -> Z) (n : nat) :
  forall w1 w2,
    dirs_stack w1 = dirs_stack w2 ->
    map forget_status (trace w1) = map forget_status (trace w2) ->
    dirs_stack (iterate (with_closedir fs f) file_name n w1)
    = dirs_stack (iterate fs file_name n w2) /\
    map forget_status (trace (iterate (with_closedir fs f) file_name n w1))
    = map forget_status (trace (iterate fs file_name n w2)).
Proof.
  induction n as [|n IH]; intros w1 w2 Hs Ht; simpl; [split; assumption|].
  apply IH.
  - rewrite !step_eq, Hs. destruct (dirs_stack w2) as [|d rest] eqn:E; [congruence|].
    simpl. reflexivity.
  - rewrite !step_eq, Hs. destruct (dirs_stack w2) as [|d rest] eqn:E; [exact Ht|].
    simpl. rewrite !map_app, Ht. f_equal.
    unfold body_events. simpl.
    destruct (opendir fs d) as [ents|]; [|reflexivity].
    destruct (ifstream_fail fs (path_join d file_name)); [reflexivity|].
    simpl. rewrite !map_app. reflexivity.
Qed.

(** Runs are deterministic: the loop exits in one state only. *)
Lemma trigger_deterministic (fs : filesystem) (file_name root : string) (count : Z)
      (f1 f2 : nat) (w1 w2 : walker) :
  trigger_existing_cgroup_probe fs file_name f1 root count = Some w1 ->
  trigger_existing_cgroup_probe fs file_name f2 root count = Some w2 ->
  w1 = w2.
Proof.
  unfold trigger_existing_cgroup_probe.
  set (s := start root count).
  destruct (dirs_stack (iterate fs file_name f1 s)) eqn:H1; [|discriminate].
  destruct (dirs_stack (iterate fs file_name f2 s)) eqn:H2; [|discriminate].
  intros E1 E2. inversion E1; inversion E2; subst.
  destruct (Nat.le_ge_cases f1 f2) as [Hle|Hle].
  - replace f2 with (f1 + (f2 - f1))%nat by lia.
    rewrite iterate_plus. symmetry. apply iterate_empty, H1.
  - replace f1 with (f2 + (f1 - f2))%nat by lia.
    rewrite iterate_plus. apply iterate_empty, H2.
Qed.

Lemma trigger_counter (fs : filesystem) (file_name root : string) (count : Z)
      (fuel : nat) (w : walker) :
  trigger_existing_cgroup_probe fs file_name fuel root count = Some w ->
  close_dir_error_count_ w = count + failed_closes (trace w).
Proof.
  unfold trigger_existing_cgroup_probe.
  destruct (iterate_extends fs file_name fuel (start root count)) as [new [Ht Hc]].
  destruct (dirs_stack (iterate fs file_name fuel (start root count))); [|discriminate].
  intros E. inversion E; subst. rewrite Hc, Ht. reflexivity.
Qed.

Lemma calls_failed_closes_app (a b : list call) :
  calls_failed_closes (a ++ b) = calls_failed_closes a + calls_failed_closes b.
Proof.
  induction a as [|c a IH]; simpl; [reflexivity|].
  destruct c; rewrite IH; lia.
Qed.

(** ** Marker-file failure (C1) *)

(** C1, as the code has it: when a directory opens but its marker file does
    not, the iteration closes the directory (counting a failed close) and
    goes on with the rest of the stack; it reads no directory entry and
    pushes nothing, so the failure skips the trigger read and the descent
    into that directory's children alike. *)
Theorem marker_failure_skips_children
        (fs : filesystem) (file_name dir_name : string) (rest : list string)
        (count : Z) (tr : list event) (ents : list dirent) :
  opendir fs dir_name = Some ents ->
  ifstream_fail fs (path_join dir_name file_name) = true ->
  loop_body fs file_name dir_name rest count tr
  = {| dirs_stack := rest;
       close_dir_error_count_ := count_close (closedir fs dir_name) count;
       trace := tr ++ [EvPeriodic; EvOpendir dir_name true;
                       EvIfstream (path_join dir_name file_name) true;
                       EvClosedir dir_name (closedir fs dir_name)] |}.
Proof.
  intros Hopen Hfail. unfold loop_body. rewrite Hopen, Hfail.
  rewrite <- app_assoc. reflexivity.
Qed.

Lemma marker_failure_skips_children_witness :
  loop_body Scenario.unmarked_root_fs "cgroup.clone_children" "/t/cgA" [] 0 []
  = {| dirs_stack := [];
       close_dir_error_count_ := 0;
       trace := [EvPeriodic; EvOpendir "/t/cgA" true;
                 EvIfstream "/t/cgA/cgroup.clone_children" true;
                 EvClosedir "/t/cgA" 0] |}.
Proof.
  apply (marker_failure_skips_children Scenario.unmarked_root_fs
           "cgroup.clone_children" "/t/cgA" [] 0 []
           [Scenario.dot; Scenario.dotdot; Scenario.subdir "cgA1"]);
    reflexivity.
Defined.

(** C1 as worded fails: [/t/cgA] opens, its marker file does not, and its
    subdirectory [cgA1] is neither read nor pushed. *)
Lemma marker_failure_still_descends_fails :
  ~ Worded.marker_failure_still_descends.
Proof.
  intros H.
  specialize (H Scenario.unmarked_root_fs "cgroup.clone_children" "/t/cgA" [] 0 []
                [Scenario.dot; Scenario.dotdot; Scenario.subdir "cgA1"]
                (Scenario.subdir "cgA1")).
  simpl in H.
  assert (Hd : DT_DIR = DT_DIR) by reflexivity.
  assert (H1 : "cgA1" <> ".") by discriminate.
  assert (H2 : "cgA1" <> "..") by discriminate.
  specialize (H eq_refl eq_refl (or_intror (or_intror (or_introl eq_refl))) Hd H1 H2).
  destruct H as [_ []].
Qed.

(** ** The close-error counter (C6) *)

(** C6: over any number of iterations the counter grows by exactly the
    number of [closedir] calls that reported failure, so a successful close
    leaves it unchanged; it never decreases as the run goes on; the stack
    and everything else the run does are the same whatever [closedir]
    reports; and the counter of a constructed object is the number of
    failed closes of its backfill walks. *)
Theorem close_error_counter_counts_failed_closes :
  (forall (fs : filesystem) (file_name : string) (n : nat) (w : walker),
      exists new,
        trace (iterate fs file_name n w) = trace w ++ new /\
        close_dir_error_count_ (iterate fs file_name n w)
        = close_dir_error_count_ w + failed_closes new /\
        (forall k, close_dir_error_count_ (iterate fs file_name n w)
                   <= close_dir_error_count_ (iterate fs file_name (n + k) w)) /\
        (forall f,
            dirs_stack (iterate (with_closedir fs f) file_name n w)
            = dirs_stack (iterate fs file_name n w) /\
            map forget_status (trace (iterate (with_closedir fs f) file_name n w))
            = map forget_status (trace (iterate fs file_name n w)))) /\
  (forall (fs : filesystem) (host_info : HostInfo) (fuel : nat),
      match CgroupProber fuel fs host_info with
      | Some p => close_dir_error_count p = calls_failed_closes (calls p)
                  /\ 0 <= close_dir_error_count p
      | None => True
      end).
Proof.
  split.
  - intros fs file_name n w.
    destruct (iterate_extends fs file_name n w) as [new [Ht Hc]].
    exists new. repeat split; try assumption.
    + intros k. rewrite iterate_plus.
      destruct (iterate_extends fs file_name k (iterate fs file_name n w))
        as [new' [_ Hc']].
      rewrite Hc'. pose proof (failed_closes_nonneg new'). lia.
    + apply iterate_closedir_irrelevant; reflexivity.
    + apply iterate_closedir_irrelevant; reflexivity.
  - intros fs host_info fuel. unfold CgroupProber.
    assert (Hv1 : forall c root w,
               trigger_existing_cgroup_probe fs "cgroup.clone_children" fuel root c = Some w ->
               close_dir_error_count_ w = c + failed_closes (trace w))
      by (intros; eapply trigger_counter; eassumption).
    assert (Hv2 : forall c root w,
               trigger_existing_cgroup_probe fs "cgroup.controllers" fuel root c = Some w ->
               close_dir_error_count_ w = c + failed_closes (trace w))
      by (intros; eapply trigger_counter; eassumption).
    destruct (negb (is_empty (find_cgroup_v1_mountpoint fs)));
      [destruct (trigger_existing_cgroup_probe fs "cgroup.clone_children" fuel _ 0)
         as [w1|] eqn:E1; [apply Hv1 in E1|exact I]|];
      (destruct (string_ge (kernel_version host_info) cgroup_v2_first_kernel_version);
       [destruct (negb (is_empty (find_cgroup_v2_mountpoint fs)));
        [match goal with
         | |- context [trigger_existing_cgroup_probe fs "cgroup.controllers" fuel ?r ?c] =>
             destruct (trigger_existing_cgroup_probe fs "cgroup.controllers" fuel r c)
               as [w2|] eqn:E2; [apply Hv2 in E2|exact I]
         end|]|]);
      cbn [close_dir_error_count calls];
      rewrite ?calls_failed_closes_app; cbn [calls_failed_closes app];
      repeat match goal with
             | |- context [failed_closes ?t] =>
                 lazymatch goal with
                 | _ : 0 <= failed_closes t |- _ => fail
                 | _ => pose proof (failed_closes_nonneg t)
                 end
             end;
      lia.
Qed.

(** ** What gets pushed (C8, C10) *)

(** C8: at every point of every run, no push recorded in the trace is for
    an entry named "." or "..", and every path on the stack is the root or
    was pushed for an entry with another name. *)
Theorem dot_entries_never_pushed
        (fs : filesystem) (file_name root : string) (count : Z) (n : nat) :
  let w := iterate fs file_name n (start root count) in
  Forall (fun de : string * dirent =>
            d_name (snd de) <> "." /\ d_name (snd de) <> "..")
         (pushes (trace w)) /\
  (forall p, In p (dirs_stack w) ->
             p = root \/
             exists d e, In (d, e) (pushes (trace w)) /\
                         p = path_join d (d_name e) /\
                         d_name e <> "." /\ d_name e <> "..").
Proof.
  intros w.
  assert (Hgood : Forall good_push (pushes (trace w)))
    by (apply iterate_good_pushes; constructor).
  split.
  - eapply Forall_impl; [|exact Hgood]. intros de [_ H]. exact H.
  - intros p Hp.
    destruct (iterate_accounted fs file_name root n _ (start_accounted root count) p
                                (or_introl Hp)) as [Hr|[d [e [Hin Heq]]]].
    + left. exact Hr.
    + right. exists d, e. split; [exact Hin|]. split; [exact Heq|].
      rewrite Forall_forall in Hgood. apply (Hgood (d, e) Hin).
Qed.

(** C10: at every point of every run, every push recorded in the trace is
    for an entry whose [d_type] is [DT_DIR], and every directory on the
    stack or already popped is the root or comes from such an entry.  In
    [/t/cgB], where [link] (reported [DT_LNK]) and [unk] (reported
    [DT_UNKNOWN]) are directories that would open, only [real] is pushed and
    only [/t/cgB] and [/t/cgB/real] are visited. *)
Theorem only_DT_DIR_entries_pushed :
  (forall (fs : filesystem) (file_name root : string) (count : Z) (n : nat),
      let w := iterate fs file_name n (start root count) in
      Forall (fun de : string * dirent => d_type (snd de) = DT_DIR)
             (pushes (trace w)) /\
      (forall p, In p (dirs_stack w) \/ In p (opendir_attempts (trace w)) ->
                 p = root \/
                 exists d e, In (d, e) (pushes (trace w)) /\
                             d_type e = DT_DIR /\
                             p = path_join d (d_name e))) /\
  (opendir Scenario.typed_fs "/t/cgB/link" <> None /\
   opendir Scenario.typed_fs "/t/cgB/unk" <> None /\
   exists w,
     (forall k, trigger_existing_cgroup_probe Scenario.typed_fs
                  "cgroup.clone_children" (2 + k) "/t/cgB" 0 = Some w) /\
     pushes (trace w) = [("/t/cgB", Scenario.subdir "real")] /\
     opendir_attempts (trace w) = ["/t/cgB"; "/t/cgB/real"]).
Proof.
  split.
  - intros fs file_name root count n w.
    assert (Hgood : Forall good_push (pushes (trace w)))
      by (apply iterate_good_pushes; constructor).
    split.
    + eapply Forall_impl; [|exact Hgood]. intros de [H _]. exact H.
    + intros p Hp.
      destruct (iterate_accounted fs file_name root n _ (start_accounted root count) p Hp)
        as [Hr|[d [e [Hin Heq]]]].
      * left. exact Hr.
      * right. exists d, e. split; [exact Hin|]. split; [|exact Heq].
        rewrite Forall_forall in Hgood. apply (Hgood (d, e) Hin).
  - split; [discriminate|]. split; [discriminate|].
    exists (iterate Scenario.typed_fs "cgroup.clone_children" 2 (start "/t/cgB" 0)).
    split; [|split; reflexivity].
    intros k. unfold trigger_existing_cgroup_probe.
    rewrite iterate_plus, iterate_empty by reflexivity. reflexivity.
Qed.

(** ** The two-directory scenario (C9) *)

(** C9: on [/t/cgA] with its one subdirectory [cgA1], each holding a
    readable [cgroup.clone_children], the walk from [/t/cgA] ends after two
    iterations, opens each of the two marker files exactly once (and
    nothing else), both successfully, and leaves the counter at zero. *)
Theorem cgA_backfill :
  exists w,
    (forall k, trigger_existing_cgroup_probe Scenario.cgA_fs
                 "cgroup.clone_children" (2 + k) "/t/cgA" 0 = Some w) /\
    trigger_existing_cgroup_probe Scenario.cgA_fs
      "cgroup.clone_children" 1 "/t/cgA" 0 = None /\
    count_occ string_dec (ifstream_opens (trace w))
              "/t/cgA/cgroup.clone_children" = 1%nat /\
    count_occ string_dec (ifstream_opens (trace w))
              "/t/cgA/cgA1/cgroup.clone_children" = 1%nat /\
    List.length (ifstream_opens (trace w)) = 2%nat /\
    In (EvIfstream "/t/cgA/cgroup.clone_children" false) (trace w) /\
    In (EvIfstream "/t/cgA/cgA1/cgroup.clone_children" false) (trace w) /\
    opendir_attempts (trace w) = ["/t/cgA"; "/t/cgA/cgA1"] /\
    closedir_statuses (trace w) = [0; 0] /\
    close_dir_error_count_ w = 0.
Proof.
  exists (iterate Scenario.cgA_fs "cgroup.clone_children" 2 (start "/t/cgA" 0)).
  split.
  { intros k. unfold trigger_existing_cgroup_probe.
    rewrite iterate_plus, iterate_empty by reflexivity. reflexivity. }
  repeat split; try reflexivity.
  - vm_compute. tauto.
  - vm_compute. tauto.
Qed.

(** ** Directory trees *)

Lemma size_eq (o m : bool) (ents : list (dirent * option fs_tree)) :
  size (Dir o m ents) = S (list_sum (map size_entry ents)).
Proof. reflexivity. Qed.

Lemma directories_eq (path : string) (o m : bool) (ents : list (dirent * option fs_tree)) :
  directories path (Dir o m ents)
  = path :: concat (map (directories_entry path) ents).
Proof. reflexivity. Qed.

Lemma walked_eq (path : string) (o m : bool) (ents : list (dirent * option fs_tree)) :
  walked path (Dir o m ents)
  = path :: (if o && m then concat (rev (map (walked_entry path) ents)) else []).
Proof. reflexivity. Qed.

Lemma size_entry_le (es : dirent * option fs_tree) (ents : list (dirent * option fs_tree)) :
  In es ents -> (size_entry es <= list_sum (map size_entry ents))%nat.
Proof.
  induction ents as [|a l IH]; simpl; [tauto|].
  intros [H|H]; [subst; lia|]. specialize (IH H). lia.
Qed.

(** Induction on trees: a property holds of a directory when it holds of
    every directory one of its entries denotes. *)
Lemma fs_tree_induction (P : fs_tree -> Prop) :
  (forall o m ents,
      (forall e t', In (e, Some t') ents -> P t') -> P (Dir o m ents)) ->
  forall t, P t.
Proof.
  intros H t.
  assert (Hn : forall n t, (size t <= n)%nat -> P t).
  { induction n as [|n IH]; intros [o m ents] Hs; rewrite size_eq in Hs; [lia|].
    apply H. intros e t' Hin. apply IH.
    apply size_entry_le in Hin. simpl in Hin. lia. }
  apply (Hn (size t)). lia.
Qed.

Lemma forest_walked_app (a b : list (string * fs_tree)) :
  forest_walked (a ++ b) = forest_walked a ++ forest_walked b.
Proof. unfold forest_walked. apply flat_map_app. Qed.

Lemma forest_size_app (a b : list (string * fs_tree)) :
  forest_size (a ++ b) = (forest_size a + forest_size b)%nat.
Proof. unfold forest_size. rewrite map_app, list_sum_app. reflexivity. Qed.

Lemma forest_size_rev (a : list (string * fs_tree)) :
  forest_size (rev a) = forest_size a.
Proof.
  induction a as [|x a IH]; simpl; [reflexivity|].
  rewrite forest_size_app, IH. unfold forest_size. simpl. lia.
Qed.

Lemma forest_size_child_items (path : string) (ents : list (dirent * option fs_tree)) :
  (forest_size (child_items path ents) <= list_sum (map size_entry ents))%nat.
Proof.
  unfold child_items. rewrite forest_size_rev.
  induction ents as [|[e sub] l IH]; simpl; [unfold forest_size; simpl; lia|].
  rewrite forest_size_app.
  assert (forest_size (child_item path (e, sub)) <= size_entry (e, sub))%nat.
  { unfold child_item, size_entry, forest_size.
    destruct (is_pushed e), sub; simpl; lia. }
  simpl in *. lia.
Qed.

Lemma forest_walked_child_items (path : string) (ents : list (dirent * option fs_tree)) :
  forest_walked (child_items path ents)
  = concat (rev (map (walked_entry path) ents)).
Proof.
  unfold child_items.
  induction ents as [|[e sub] l IH]; simpl; [reflexivity|].
  rewrite rev_app_distr, forest_walked_app, IH, concat_app. f_equal.
  unfold child_item, walked_entry, forest_walked.
  destruct (is_pushed e), sub; simpl; rewrite ?app_nil_r; reflexivity.
Qed.

Lemma child_items_in (path p' : string) (t' : fs_tree)
      (ents : list (dirent * option fs_tree)) :
  In (p', t') (child_items path ents) ->
  exists e, In (e, Some t') ents /\ p' = path_join path (d_name e).
Proof.
  unfold child_items. rewrite <- in_rev, in_flat_map.
  intros [[e sub] [Hin Hc]]. unfold child_item in Hc.
  destruct (is_pushed e); [|destruct Hc].
  destruct sub as [t0|]; [|destruct Hc].
  destruct Hc as [Hc|[]]. inversion Hc; subst. exists e. split; [exact Hin|reflexivity].
Qed.

Lemma well_formed_child (o m : bool) (ents : list (dirent * option fs_tree))
      (e : dirent) (t' : fs_tree) :
  well_formed (Dir o m ents) = true -> In (e, Some t') ents -> well_formed t' = true.
Proof.
  simpl. rewrite forallb_forall. intros H Hin. apply (H _ Hin).
Qed.

Lemma child_items_paths (path : string) (o m : bool)
      (ents : list (dirent * option fs_tree)) :
  well_formed (Dir o m ents) = true ->
  map fst (child_items path ents) = rev (pushed_paths path (map fst ents)).
Proof.
  simpl. unfold child_items, pushed_paths. rewrite map_rev. intros H. f_equal.
  induction ents as [|[e sub] l IH]; simpl in *; [reflexivity|].
  apply andb_true_iff in H. destruct H as [He Hl].
  rewrite map_app, (IH Hl). unfold child_item.
  destruct (is_pushed e) eqn:Hp; simpl; [|reflexivity].
  destruct sub as [t'|]; [reflexivity|discriminate].
Qed.

(** What one iteration leaves on the stack for a directory of a tree. *)
Lemma body_stack_models (fs : filesystem) (file_name path : string)
      (o m : bool) (ents : list (dirent * option fs_tree)) :
  models fs file_name path (Dir o m ents) ->
  well_formed (Dir o m ents) = true ->
  body_stack fs file_name path
  = map fst (if o && m then child_items path ents else []).
Proof.
  intros Hm Hwf. inversion Hm as [? ? ? ? Hopen Hfail Hsub]; subst.
  unfold body_stack. rewrite Hopen, Hfail.
  destruct o; [|reflexivity]. destruct m; simpl; [|reflexivity].
  symmetry. eapply child_items_paths, Hwf.
Qed.

(** The walk of a stack of trees: after as many iterations as there are
    directories to pop, the items are gone from the stack and the
    directories popped are those of [forest_walked], in that order. *)
Lemma walk_forest (fs : filesystem) (file_name : string) (n : nat) :
  forall items : list (string * fs_tree),
    (forest_size items <= n)%nat ->
    (forall pt, In pt items ->
                models fs file_name (fst pt) (snd pt) /\ well_formed (snd pt) = true) ->
    forall (rest : list string) (count : Z) (tr : list event),
      let w := iterate fs file_name (List.length (forest_walked items))
                       {| dirs_stack := map fst items ++ rest;
                          close_dir_error_count_ := count;
                          trace := tr |} in
      dirs_stack w = rest /\
      opendir_attempts (trace w) = opendir_attempts tr ++ forest_walked items.
Proof.
  induction n as [|n IH]; intros items Hsize Hitems rest count tr.
  - destruct items as [|[p [o m ents]] items'].
    + simpl. rewrite app_nil_r. split; reflexivity.
    + unfold forest_size in Hsize. simpl in Hsize. lia.
  - destruct items as [|[p [o m ents]] items'].
    + simpl. rewrite app_nil_r. split; reflexivity.
    + destruct (Hitems _ (or_introl eq_refl)) as [Hm Hwf]. cbn [fst snd] in Hm, Hwf.
      set (kids := if o && m then child_items p ents else []).
      assert (Hfw : forest_walked ((p, Dir o m ents) :: items')
                    = p :: forest_walked (kids ++ items')).
      { rewrite forest_walked_app. unfold forest_walked at 1. simpl flat_map.
        simpl. f_equal. f_equal. unfold kids.
        destruct (o && m); [symmetry; apply forest_walked_child_items|reflexivity]. }
      rewrite Hfw. simpl List.length. simpl iterate.
      rewrite step_eq. cbn [dirs_stack close_dir_error_count_ trace].
      rewrite (body_stack_models fs file_name p o m ents Hm Hwf).
      fold kids. rewrite app_assoc, <- map_app.
      assert (Hsz : (forest_size (kids ++ items') <= n)%nat).
      { rewrite forest_size_app.
        assert (forest_size kids <= list_sum (map size_entry ents))%nat.
        { unfold kids. destruct (o && m); [apply forest_size_child_items|].
          unfold forest_size. simpl. lia. }
        unfold forest_size in Hsize. simpl in Hsize.
        fold (forest_size items') in Hsize.
        change (fun es : dirent * option fs_tree =>
                  let '(_, sub) := es in
                  match sub with Some t' => size t' | None => O end)
          with size_entry in Hsize.
        lia. }
      assert (Hall : forall pt, In pt (kids ++ items') ->
                models fs file_name (fst pt) (snd pt) /\ well_formed (snd pt) = true).
      { intros [p' t'] Hin. apply in_app_or in Hin. destruct Hin as [Hin|Hin].
        - unfold kids in Hin. destruct (o && m); [|destruct Hin].
          apply child_items_in in Hin. destruct Hin as [e [Hin Hp']]. subst p'.
          simpl. split.
          + inversion Hm as [? ? ? ? _ _ Hsub]; subst. apply Hsub, Hin.
          + eapply well_formed_child; eassumption.
        - apply Hitems. right. exact Hin. }
      destruct (IH (kids ++ items') Hsz Hall rest
                   (count + failed_closes (body_events fs file_name p))
                   (tr ++ body_events fs file_name p)) as [Hs Ha].
      split; [exact Hs|].
      rewrite Ha, opendir_attempts_app, body_events_opendir, <- app_assoc.
      reflexivity.
Qed.

Lemma count_occ_concat_rev (l : list (list string)) (p : string) :
  count_occ string_dec (concat (rev l)) p = count_occ string_dec (concat l) p.
Proof.
  induction l as [|x l IH]; simpl; [reflexivity|].
  rewrite concat_app, !count_occ_app, IH. simpl. rewrite app_nil_r. lia.
Qed.

(** The walk reaches no directory more often than the tree holds it. *)
Lemma walked_count_le (t : fs_tree) :
  forall (path p : string),
    (count_occ string_dec (walked path t) p
     <= count_occ string_dec (directories path t) p)%nat.
Proof.
  induction t as [o m ents IH] using fs_tree_induction. intros path p.
  rewrite walked_eq, directories_eq. simpl count_occ.
  assert (Hin : (count_occ string_dec
                   (if o && m then concat (rev (map (walked_entry path) ents)) else []) p
                 <= count_occ string_dec (concat (map (directories_entry path) ents)) p)%nat).
  { destruct (o && m); [|simpl; lia].
    rewrite count_occ_concat_rev.
    induction ents as [|[e sub] l IHl]; cbn [map concat]; [simpl; lia|].
    rewrite !count_occ_app.
    assert (Hl : (count_occ string_dec (concat (map (walked_entry path) l)) p
                  <= count_occ string_dec (concat (map (directories_entry path) l)) p)%nat).
    { apply IHl. intros e' t' H. apply (IH e' t'). right. exact H. }
    assert (He : (count_occ string_dec (walked_entry path (e, sub)) p
                  <= count_occ string_dec (directories_entry path (e, sub)) p)%nat).
    { unfold walked_entry, directories_entry.
      destruct (is_pushed e); [|simpl; lia].
      destruct sub as [t'|]; [|simpl; lia].
      apply (IH e t'). left. reflexivity. }
    lia. }
  destruct (string_dec path p); lia.
Qed.

Lemma walked_NoDup (path : string) (t : fs_tree) :
  NoDup (directories path t) -> NoDup (walked path t).
Proof.
  rewrite !(NoDup_count_occ string_dec). intros H p.
  specialize (H p). pose proof (walked_count_le t path p). lia.
Qed.

(** On a cooperative tree the walk reaches every directory. *)
Lemma walked_cooperative (t : fs_tree) :
  forall path, cooperative t = true ->
               Permutation (walked path t) (directories path t).
Proof.
  induction t as [o m ents IH] using fs_tree_induction. intros path Hc.
  rewrite walked_eq, directories_eq. simpl in Hc.
  apply andb_true_iff in Hc. destruct Hc as [Hom Hents]. rewrite Hom.
  apply perm_skip.
  induction ents as [|[e sub] l IHl]; cbn [map concat rev]; [constructor|].
  cbn [forallb] in Hents. apply andb_true_iff in Hents. destruct Hents as [He Hl].
  rewrite concat_app. cbn [concat]. rewrite app_nil_r.
  etransitivity; [apply Permutation_app_comm|].
  apply Permutation_app.
  - unfold walked_entry, directories_entry.
    destruct sub as [t'|].
    + apply andb_true_iff in He. destruct He as [Hp Hc]. rewrite Hp.
      apply (IH e t'); [left; reflexivity|exact Hc].
    + destruct (is_pushed e); constructor.
  - apply IHl; [|exact Hl]. intros e' t' H. apply (IH e' t'). right. exact H.
Qed.

Lemma directories_length (t : fs_tree) :
  forall path, List.length (directories path t) = size t.
Proof.
  induction t as [o m ents IH] using fs_tree_induction. intros path.
  rewrite directories_eq, size_eq. cbn [List.length]. f_equal.
  induction ents as [|[e sub] l IHl]; cbn [map concat]; [reflexivity|].
  rewrite length_app.
  change (list_sum (size_entry (e, sub) :: map size_entry l))
    with (size_entry (e, sub) + list_sum (map size_entry l))%nat.
  f_equal.
  - cbn [directories_entry size_entry]. destruct sub as [t'|]; [|reflexivity].
    apply (IH e t'). left. reflexivity.
  - apply IHl. intros e' t' H. apply (IH e' t'). right. exact H.
Qed.

(** ** Exhaustive coverage (C3) *)

(** C3, as the code has it: on every filesystem that looks like a finite
    directory tree whose directories have pairwise distinct paths, the walk
    ends, after as many iterations as it pops directories; the directories
    it pops are exactly those of [walked], each exactly once and no other
    directory at all: the root, and every directory entered from a parent
    that opened and whose marker file opened, through an entry reported as
    [DT_DIR] and named neither "." nor "..".  When every directory opens,
    every marker file opens and every subdirectory is reported as [DT_DIR],
    these are all N directories of the tree, each visited exactly once. *)
Theorem walk_visits_reached_directories_once
        (fs : filesystem) (file_name root : string) (t : fs_tree) (count : Z) :
  models fs file_name root t ->
  well_formed t = true ->
  NoDup (directories root t) ->
  exists w,
    (forall k, trigger_existing_cgroup_probe fs file_name
                 (List.length (walked root t) + k) root count = Some w) /\
    opendir_attempts (trace w) = walked root t /\
    (forall p, count_occ string_dec (opendir_attempts (trace w)) p
               = if in_dec string_dec p (walked root t) then 1%nat else 0%nat) /\
    (cooperative t = true ->
     List.length (opendir_attempts (trace w)) = size t /\
     forall p, In p (directories root t) ->
               count_occ string_dec (opendir_attempts (trace w)) p = 1%nat).
Proof.
  intros Hm Hwf Hnd.
  assert (Hitems : forall pt, In pt [(root, t)] ->
            models fs file_name (fst pt) (snd pt) /\ well_formed (snd pt) = true).
  { intros pt [Hpt|[]]. subst pt. split; assumption. }
  destruct (walk_forest fs file_name (forest_size [(root, t)]) [(root, t)]
                        (le_n _) Hitems [] count []) as [Hs Ha].
  unfold forest_walked in Hs, Ha. simpl in Hs, Ha. rewrite app_nil_r in Hs, Ha.
  fold (start root count) in Hs, Ha.
  set (w := iterate fs file_name (List.length (walked root t)) (start root count)) in *.
  assert (Hnd' : NoDup (walked root t)) by (apply walked_NoDup, Hnd).
  assert (Hcount : forall p, count_occ string_dec (opendir_attempts (trace w)) p
                             = if in_dec string_dec p (walked root t) then 1%nat else 0%nat).
  { intros p. rewrite Ha. destruct (in_dec string_dec p (walked root t)) as [Hin|Hin].
    - apply NoDup_count_occ'; assumption.
    - apply count_occ_not_In, Hin. }
  exists w. split; [|split; [exact Ha|split; [exact Hcount|]]].
  - intros k. unfold trigger_existing_cgroup_probe.
    rewrite iterate_plus. fold w. rewrite (iterate_empty _ _ _ _ Hs), Hs. reflexivity.
  - intros Hc. pose proof (walked_cooperative t root Hc) as Hperm. split.
    + rewrite Ha, (Permutation_length Hperm). apply directories_length.
    + intros p Hin. rewrite Hcount.
      destruct (in_dec string_dec p (walked root t)) as [_|Hn]; [reflexivity|].
      exfalso. apply Hn. eapply Permutation_in; [symmetry; exact Hperm|exact Hin].
Qed.

Lemma cgA_models :
  models Scenario.cgA_fs "cgroup.clone_children" "/t/cgA" Scenario.cgA_tree.
Proof.
  constructor; [reflexivity|reflexivity|].
  intros e t' [H|[H|[H|[H|[]]]]]; inversion H; subst.
  constructor; [reflexivity|reflexivity|].
  intros e' t' [H'|[H'|[H'|[]]]]; inversion H'.
Qed.

Lemma cgA_NoDup : NoDup (directories "/t/cgA" Scenario.cgA_tree).
Proof.
  simpl. constructor; [|constructor; [|constructor]]; simpl; [|tauto].
  intros [H|[]]. discriminate.
Qed.

Lemma walk_visits_reached_directories_once_witness :
  exists w,
    (forall k, trigger_existing_cgroup_probe Scenario.cgA_fs "cgroup.clone_children"
                 (2 + k) "/t/cgA" 0 = Some w) /\
    opendir_attempts (trace w) = ["/t/cgA"; "/t/cgA/cgA1"].
Proof.
  destruct (walk_visits_reached_directories_once
              Scenario.cgA_fs "cgroup.clone_children" "/t/cgA" Scenario.cgA_tree 0
              cgA_models eq_refl cgA_NoDup) as [w [Hrun [Hatt _]]].
  exists w. split; [exact Hrun|exact Hatt].
Defined.

Lemma unmarked_root_models :
  models Scenario.unmarked_root_fs "cgroup.clone_children" "/t/cgA"
         Scenario.unmarked_root_tree.
Proof.
  constructor; [reflexivity|reflexivity|].
  intros e t' [H|[H|[H|[]]]]; inversion H; subst.
  constructor; [reflexivity|reflexivity|].
  intros e' t' [H'|[H'|[H'|[]]]]; inversion H'.
Qed.

(** C3 as worded fails: in the tree [/t/cgA] with subdirectory [cgA1],
    where [/t/cgA] has no marker file, the walk ends without ever visiting
    [/t/cgA/cgA1]. *)
Lemma visits_every_directory_once_fails :
  ~ Worded.visits_every_directory_once.
Proof.
  intros H.
  destruct (H Scenario.unmarked_root_fs "cgroup.clone_children" "/t/cgA"
              Scenario.unmarked_root_tree 0 unmarked_root_models eq_refl)
    as [fuel [w [Hrun Hall]]].
  { simpl. constructor; [|constructor; [|constructor]]; simpl; [|tauto].
    intros [E|[]]. discriminate. }
  assert (H1 : trigger_existing_cgroup_probe Scenario.unmarked_root_fs
                 "cgroup.clone_children" 1 "/t/cgA" 0
               = Some (iterate Scenario.unmarked_root_fs "cgroup.clone_children" 1
                               (start "/t/cgA" 0))) by reflexivity.
  pose proof (trigger_deterministic _ _ _ _ _ _ _ _ Hrun H1) as Hw. subst w.
  specialize (Hall "/t/cgA/cgA1" (or_intror (or_introl eq_refl))).
  vm_compute in Hall. discriminate.
Qed.

(** ** Mountpoint location (C4) *)

Lemma first_mountpoint_first_match (ok : string -> bool) (l : list string) :
  first_match ok l (first_mountpoint ok l).
Proof.
  induction l as [|c l IH]; simpl.
  - apply fm_none. constructor.
  - destruct (ok c) eqn:Hc.
    + apply (fm_hit ok [] c l); [constructor|exact Hc].
    + remember (first_mountpoint ok l) as r eqn:Hr.
      destruct IH as [l' Hall|before c' after Hall Hc'].
      * apply fm_none. constructor; assumption.
      * apply (fm_hit ok (c :: before) c' after); [constructor|]; assumption.
Qed.

(** C4: each locator returns the first candidate of its list, in the
    declared order, whose marker path [candidate + "/" + marker_file] can be
    [stat]ed and is a regular file, and the empty string when no candidate
    qualifies; when of the v1 candidates only the third qualifies, the third
    is returned. *)
Theorem mountpoint_is_first_regular_marker :
  (forall fs, first_match (marker_is_regular fs "cgroup.clone_children")
                          ["/hostfs/sys/fs/cgroup/memory"; "/hostfs/cgroup/memory";
                           "/sys/fs/cgroup/memory"; "/cgroup/memory"]
                          (find_cgroup_v1_mountpoint fs)) /\
  (forall fs, first_match (marker_is_regular fs "cgroup.controllers")
                          ["/hostfs/sys/fs/cgroup"; "/sys/fs/cgroup"]
                          (find_cgroup_v2_mountpoint fs)) /\
  (forall fs,
      marker_is_regular fs "cgroup.clone_children" "/hostfs/sys/fs/cgroup/memory" = false ->
      marker_is_regular fs "cgroup.clone_children" "/hostfs/cgroup/memory" = false ->
      marker_is_regular fs "cgroup.clone_children" "/sys/fs/cgroup/memory" = true ->
      find_cgroup_v1_mountpoint fs = "/sys/fs/cgroup/memory").
Proof.
  split; [|split].
  - intros fs. apply (first_mountpoint_first_match (is_cgroup_v1_mountpoint fs)).
  - intros fs. apply (first_mountpoint_first_match (is_cgroup_v2_mountpoint fs)).
  - intros fs H1 H2 H3.
    unfold find_cgroup_v1_mountpoint, cgroup_v1_mountpoints. simpl.
    change (is_cgroup_v1_mountpoint fs) with (marker_is_regular fs "cgroup.clone_children").
    rewrite H1, H2, H3. reflexivity.
Qed.

Lemma mountpoint_is_first_regular_marker_witness :
  find_cgroup_v1_mountpoint Scenario.only_third_fs = "/sys/fs/cgroup/memory".
Proof.
  apply (proj2 (proj2 mountpoint_is_first_regular_marker) Scenario.only_third_fs);
    reflexivity.
Defined.

(** ** Probe alternatives (C5) *)

(** C5: the alternatives attempted are an initial segment of the declared
    list, in the declared order; on success every attempted alternative but
    the last failed, the last attached, and none after it was attempted; on
    failure all were attempted and all failed.  For the "kill css" set, when
    [kill_css] fails and [css_clear_dir] attaches, exactly these two are
    attempted and [cgroup_destroy_locked] never is. *)
Theorem alternatives_stop_at_first_success :
  (forall (attach : string -> string -> bool) (alternatives : list alternative),
      match attach_first_success attach alternatives with
      | (true, attempted) =>
          exists failed a later,
            alternatives = failed ++ a :: later /\
            attempted = failed ++ [a] /\
            Forall (fun b => attach (fst b) (snd b) = false) failed /\
            attach (fst a) (snd a) = true
      | (false, attempted) =>
          attempted = alternatives /\
          Forall (fun b => attach (fst b) (snd b) = false) alternatives
      end) /\
  (forall attach : string -> string -> bool,
      attach "on_kill_css" "kill_css" = false ->
      attach "on_kill_css" "css_clear_dir" = true ->
      start_probe_alternatives attach kill_kss_probe_alternatives
      = (true, [("on_kill_css", "kill_css"); ("on_kill_css", "css_clear_dir")]) /\
      ~ In ("on_cgroup_destroy_locked", "cgroup_destroy_locked")
           (snd (start_probe_alternatives attach kill_kss_probe_alternatives))).
Proof.
  split.
  - intros attach alternatives.
    induction alternatives as [|[handler symbol] later IH]; simpl.
    + split; [reflexivity|constructor].
    + destruct (attach handler symbol) eqn:Ha.
      * exists [], (handler, symbol), later. repeat split; try reflexivity; [constructor|exact Ha].
      * destruct (attach_first_success attach later) as [[|] attempted].
        -- destruct IH as [failed [a [later' [Hl [Hat [Hf Hok]]]]]].
           exists ((handler, symbol) :: failed), a, later'. subst.
           repeat split; try reflexivity; [|exact Hok].
           constructor; [exact Ha|exact Hf].
        -- destruct IH as [Hat Hf]. subst. split; [reflexivity|].
           constructor; [exact Ha|exact Hf].
  - intros attach H1 H2.
    unfold start_probe_alternatives. simpl. rewrite H1, H2. simpl.
    split; [reflexivity|].
    intros [H|[H|[]]]; discriminate.
Qed.

Lemma alternatives_stop_at_first_success_witness :
  start_probe_alternatives Scenario.jammy_attach kill_kss_probe_alternatives
  = (true, [("on_kill_css", "kill_css"); ("on_kill_css", "css_clear_dir")]).
Proof.
  apply (proj2 alternatives_stop_at_first_success Scenario.jammy_attach);
    reflexivity.
Defined.

(** ** The startup sequence (C7, C2) *)

(** C7: whenever the backfill walks end within the fuel, the constructor
    returns, and its calls split around one
    [cleanup_probe("cgroup_clone_children_read")]: what comes before holds
    the v1 backfill when a v1 mountpoint was found, and no backfill when
    none was; it holds no call of the cgroup v2 phase; what comes after
    holds no call of the v1 backfill and no second detach. *)
Theorem v1_trigger_detached_between_phases
        (fuel : nat) (fs : filesystem) (host_info : HostInfo) :
  (is_empty (find_cgroup_v1_mountpoint fs) = false ->
   trigger_existing_cgroup_probe fs "cgroup.clone_children" fuel
     (find_cgroup_v1_mountpoint fs) 0 <> None) ->
  (string_ge (kernel_version host_info) cgroup_v2_first_kernel_version = true ->
   is_empty (find_cgroup_v2_mountpoint fs) = false ->
   forall count,
     trigger_existing_cgroup_probe fs "cgroup.controllers" fuel
       (find_cgroup_v2_mountpoint fs) count <> None) ->
  exists p before after,
    CgroupProber fuel fs host_info = Some p /\
    calls p = before ++ v1_detach :: after /\
    Forall (fun c => is_v2_phase c = false /\ is_v1_detach c = false) before /\
    Forall (fun c => is_v1_backfill c = false /\ is_v1_detach c = false) after /\
    (is_empty (find_cgroup_v1_mountpoint fs) = false ->
     exists events,
       In (Trigger (find_cgroup_v1_mountpoint fs) "cgroup.clone_children" events) before) /\
    (is_empty (find_cgroup_v1_mountpoint fs) = true ->
     Forall (fun c => is_v1_backfill c = false) before).
Proof.
  intros Hv1 Hv2. unfold CgroupProber.
  destruct (is_empty (find_cgroup_v1_mountpoint fs)) eqn:E1; cbn [negb].
  - (* no v1 mountpoint *)
    destruct (string_ge (kernel_version host_info) cgroup_v2_first_kernel_version) eqn:Eg.
    + destruct (is_empty (find_cgroup_v2_mountpoint fs)) eqn:E2; cbn [negb].
      * split_calls startup_calls. split; [discriminate|intros _; repeat constructor].
      * specialize (Hv2 eq_refl eq_refl 0).
        destruct (trigger_existing_cgroup_probe fs "cgroup.controllers" fuel
                    (find_cgroup_v2_mountpoint fs) 0) as [w2|]; [|congruence].
        split_calls startup_calls. split; [discriminate|intros _; repeat constructor].
    + split_calls startup_calls. split; [discriminate|intros _; repeat constructor].
  - (* v1 mountpoint found *)
    specialize (Hv1 eq_refl).
    destruct (trigger_existing_cgroup_probe fs "cgroup.clone_children" fuel
                (find_cgroup_v1_mountpoint fs) 0) as [w1|]; [|congruence].
    set (backfilled :=
           startup_calls
             ++ [Trigger (find_cgroup_v1_mountpoint fs) "cgroup.clone_children" (trace w1);
                 CheckCb "trigger_cgroup_clone_children_read()"]).
    destruct (string_ge (kernel_version host_info) cgroup_v2_first_kernel_version) eqn:Eg.
    + destruct (is_empty (find_cgroup_v2_mountpoint fs)) eqn:E2; cbn [negb].
      * split_calls backfilled.
        split; [intros _; eexists; do 8 right; left; reflexivity|discriminate].
      * specialize (Hv2 eq_refl eq_refl (close_dir_error_count_ w1)).
        destruct (trigger_existing_cgroup_probe fs "cgroup.controllers" fuel
                    (find_cgroup_v2_mountpoint fs) (close_dir_error_count_ w1))
          as [w2|]; [|congruence].
        split_calls backfilled.
        split; [intros _; eexists; do 8 right; left; reflexivity|discriminate].
    + split_calls backfilled.
      split; [intros _; eexists; do 8 right; left; reflexivity|discriminate].
Qed.

Lemma v1_trigger_detached_between_phases_witness :
  exists p before after,
    CgroupProber 2 Scenario.hybrid_fs {| kernel_version := "5.15.0-91-generic" |} = Some p /\
    calls p = before ++ v1_detach :: after /\
    close_dir_error_count p = 1.
Proof.
  destruct (v1_trigger_detached_between_phases
              2 Scenario.hybrid_fs {| kernel_version := "5.15.0-91-generic" |})
    as [p [before [after [Hp [Hcalls _]]]]].
  - intros _. vm_compute. discriminate.
  - intros _ _ count. vm_compute. discriminate.
  - exists p, before, after. split; [exact Hp|]. split; [exact Hcalls|].
    vm_compute in Hp. inversion Hp. reflexivity.
Defined.

(** C2: the gate compares the release string with "4.6" as strings.  It
    lets 4.6, 4.9 and 5.15 through and stops 4.5 and 3.10, but it also stops
    4.10 and 10.0, which are above 4.6 as versions: on a hybrid host with
    kernel 4.10.0 the constructor makes no call of the cgroup v2 phase. *)
Theorem kernel_version_gate_is_lexicographic :
  string_ge "4.6" cgroup_v2_first_kernel_version = true /\
  string_ge "4.9.0" cgroup_v2_first_kernel_version = true /\
  string_ge "5.15.0-91-generic" cgroup_v2_first_kernel_version = true /\
  string_ge "4.5.7" cgroup_v2_first_kernel_version = false /\
  string_ge "3.10.0" cgroup_v2_first_kernel_version = false /\
  (kernel_supports_cgroup_v2 "4.10.0" = true /\
   string_ge "4.10.0" cgroup_v2_first_kernel_version = false) /\
  (kernel_supports_cgroup_v2 "10.0.1" = true /\
   string_ge "10.0.1" cgroup_v2_first_kernel_version = false) /\
  exists p,
    CgroupProber 2 Scenario.hybrid_fs {| kernel_version := "4.10.0" |} = Some p /\
    find_cgroup_v2_mountpoint Scenario.hybrid_fs = "/sys/fs/cgroup" /\
    Forall (fun c => is_v2_phase c = false) (calls p).
Proof.
  repeat (split; [reflexivity|]).
  split; [split; reflexivity|].
  split; [split; reflexivity|].
  eexists. split; [vm_compute; reflexivity|]. split; [reflexivity|].
  repeat constructor.
Qed.


(** * Further properties of the walker *)

(** ** A trace is the events of the iterations made, one after the other *)

Lemma trace_is_bodies_from (fs : filesystem) (file_name : string) (n : nat) :
  forall w,
    trace w = flat_map (body_events fs file_name) (opendir_attempts (trace w)) ->
    trace (iterate fs file_name n w)
    = flat_map (body_events fs file_name)
               (opendir_attempts (trace (iterate fs file_name n w))).
Proof.
  induction n as [|n IH]; intros w H; simpl; [exact H|].
  apply IH. rewrite step_eq. destruct (dirs_stack w) as [|d rest]; [exact H|].
  simpl. rewrite opendir_attempts_app, body_events_opendir, flat_map_app.
  simpl. rewrite app_nil_r, <- H. reflexivity.
Qed.

Lemma trace_is_bodies (fs : filesystem) (file_name root : string) (count : Z) (n : nat) :
  trace (iterate fs file_name n (start root count))
  = flat_map (body_events fs file_name)
             (opendir_attempts (trace (iterate fs file_name n (start root count)))).
Proof. apply trace_is_bodies_from. reflexivity. Qed.

Lemma opened_dirs_readdir (d : string) (ents : list dirent) :
  opened_dirs (readdir_events d ents) = [].
Proof.
  unfold opened_dirs, readdir_events.
  induction ents as [|e ents IH]; simpl; [reflexivity|].
  rewrite flat_map_app, IH, app_nil_r. unfold entry_events.
  destruct (d_type e =? DT_DIR); [destruct (is_dot (d_name e))|]; reflexivity.
Qed.

Lemma closed_dirs_readdir (d : string) (ents : list dirent) :
  closed_dirs (readdir_events d ents) = [].
Proof.
  unfold closed_dirs, readdir_events.
  induction ents as [|e ents IH]; simpl; [reflexivity|].
  rewrite flat_map_app, IH, app_nil_r. unfold entry_events.
  destruct (d_type e =? DT_DIR); [destruct (is_dot (d_name e))|]; reflexivity.
Qed.

Lemma getlines_readdir (d : string) (ents : list dirent) :
  getlines (readdir_events d ents) = [].
Proof.
  unfold getlines, readdir_events.
  induction ents as [|e ents IH]; simpl; [reflexivity|].
  rewrite flat_map_app, IH, app_nil_r. unfold entry_events.
  destruct (d_type e =? DT_DIR); [destruct (is_dot (d_name e))|]; reflexivity.
Qed.

Lemma readdirs_readdir (d : string) (ents : list dirent) :
  readdirs (readdir_events d ents) = ents.
Proof.
  unfold readdirs, readdir_events.
  induction ents as [|e ents IH]; simpl; [reflexivity|].
  rewrite flat_map_app, IH. unfold entry_events.
  destruct (d_type e =? DT_DIR); [destruct (is_dot (d_name e))|]; reflexivity.
Qed.

Lemma periodic_calls_app (a b : list event) :
  periodic_calls (a ++ b) = (periodic_calls a + periodic_calls b)%nat.
Proof. unfold periodic_calls. rewrite filter_app, length_app. reflexivity. Qed.

Lemma periodic_calls_readdir (d : string) (ents : list dirent) :
  periodic_calls (readdir_events d ents)
  = List.length (filter (fun e => negb (skips_periodic e)) ents).
Proof.
  unfold readdir_events.
  induction ents as [|e ents IH]; simpl; [reflexivity|].
  rewrite periodic_calls_app, IH. unfold entry_events, skips_periodic.
  destruct (d_type e =? DT_DIR); [destruct (is_dot (d_name e))|]; reflexivity.
Qed.

(** What one iteration contributes to each observation. *)
Lemma body_opened (fs : filesystem) (file_name d : string) :
  opened_dirs (body_events fs file_name d) = if opens fs d then [d] else [].
Proof.
  unfold body_events, opens. destruct (opendir fs d) as [ents|]; [|reflexivity].
  destruct (ifstream_fail fs (path_join d file_name)); [reflexivity|].
  unfold opened_dirs. simpl. rewrite flat_map_app.
  fold (opened_dirs (readdir_events d ents)). rewrite opened_dirs_readdir. reflexivity.
Qed.

Lemma body_closed (fs : filesystem) (file_name d : string) :
  closed_dirs (body_events fs file_name d) = if opens fs d then [d] else [].
Proof.
  unfold body_events, opens. destruct (opendir fs d) as [ents|]; [|reflexivity].
  destruct (ifstream_fail fs (path_join d file_name)); [reflexivity|].
  unfold closed_dirs. simpl. rewrite flat_map_app.
  fold (closed_dirs (readdir_events d ents)). rewrite closed_dirs_readdir. reflexivity.
Qed.

Lemma body_closedir_statuses (fs : filesystem) (file_name d : string) :
  closedir_statuses (body_events fs file_name d)
  = if opens fs d then [closedir fs d] else [].
Proof.
  unfold body_events, opens. destruct (opendir fs d) as [ents|]; [|reflexivity].
  destruct (ifstream_fail fs (path_join d file_name)); [reflexivity|].
  simpl. rewrite closedir_statuses_app, readdir_events_closedir. reflexivity.
Qed.

Lemma body_ifstream (fs : filesystem) (file_name d : string) :
  ifstream_opens (body_events fs file_name d)
  = if opens fs d then [path_join d file_name] else [].
Proof.
  unfold body_events, opens. destruct (opendir fs d) as [ents|]; [|reflexivity].
  destruct (ifstream_fail fs (path_join d file_name)); [reflexivity|].
  simpl. rewrite ifstream_opens_app, readdir_events_ifstream. reflexivity.
Qed.

Lemma body_getlines (fs : filesystem) (file_name d : string) :
  getlines (body_events fs file_name d)
  = if marker_read fs file_name d then [path_join d file_name] else [].
Proof.
  unfold body_events, marker_read, opens.
  destruct (opendir fs d) as [ents|]; [|reflexivity].
  destruct (ifstream_fail fs (path_join d file_name)); [reflexivity|].
  unfold getlines. simpl. rewrite flat_map_app.
  fold (getlines (readdir_events d ents)). rewrite getlines_readdir. reflexivity.
Qed.

Lemma body_readdirs (fs : filesystem) (file_name d : string) :
  readdirs (body_events fs file_name d)
  = if marker_read fs file_name d
    then match opendir fs d with Some ents => ents | None => [] end
    else [].
Proof.
  unfold body_events, marker_read, opens.
  destruct (opendir fs d) as [ents|]; [|reflexivity].
  destruct (ifstream_fail fs (path_join d file_name)); [reflexivity|].
  unfold readdirs. simpl. rewrite flat_map_app.
  fold (readdirs (readdir_events d ents)). rewrite readdirs_readdir.
  simpl. rewrite app_nil_r. reflexivity.
Qed.

Lemma body_periodic (fs : filesystem) (file_name d : string) :
  periodic_calls (body_events fs file_name d)
  = S (List.length (filter (fun e => negb (skips_periodic e))
                           (readdirs (body_events fs file_name d)))).
Proof.
  rewrite body_readdirs. unfold body_events, marker_read, opens.
  destruct (opendir fs d) as [ents|]; [|reflexivity].
  destruct (ifstream_fail fs (path_join d file_name)); [reflexivity|].
  pose proof (periodic_calls_readdir d ents) as Hr.
  unfold periodic_calls in *. simpl. rewrite filter_app, length_app, Hr.
  simpl. lia.
Qed.

Lemma opened_dirs_app (a b : list event) :
  opened_dirs (a ++ b) = opened_dirs a ++ opened_dirs b.
Proof. apply flat_map_app. Qed.

Lemma closed_dirs_app (a b : list event) :
  closed_dirs (a ++ b) = closed_dirs a ++ closed_dirs b.
Proof. apply flat_map_app. Qed.

Lemma getlines_app (a b : list event) :
  getlines (a ++ b) = getlines a ++ getlines b.
Proof. apply flat_map_app. Qed.

Lemma readdirs_app (a b : list event) :
  readdirs (a ++ b) = readdirs a ++ readdirs b.
Proof. apply flat_map_app. Qed.

Lemma bodies_opened (fs : filesystem) (file_name : string) (ds : list string) :
  opened_dirs (flat_map (body_events fs file_name) ds) = filter (opens fs) ds.
Proof.
  induction ds as [|d ds IH]; [reflexivity|]. cbn [flat_map].
  rewrite opened_dirs_app, IH, body_opened.
  cbn [filter]. destruct (opens fs d); reflexivity.
Qed.

Lemma bodies_closed (fs : filesystem) (file_name : string) (ds : list string) :
  closed_dirs (flat_map (body_events fs file_name) ds) = filter (opens fs) ds.
Proof.
  induction ds as [|d ds IH]; [reflexivity|]. cbn [flat_map].
  rewrite closed_dirs_app, IH, body_closed.
  cbn [filter]. destruct (opens fs d); reflexivity.
Qed.

Lemma bodies_statuses (fs : filesystem) (file_name : string) (ds : list string) :
  closedir_statuses (flat_map (body_events fs file_name) ds)
  = map (closedir fs) (filter (opens fs) ds).
Proof.
  induction ds as [|d ds IH]; [reflexivity|]. cbn [flat_map].
  rewrite closedir_statuses_app, IH, body_closedir_statuses.
  cbn [filter]. destruct (opens fs d); reflexivity.
Qed.

Lemma bodies_ifstream (fs : filesystem) (file_name : string) (ds : list string) :
  ifstream_opens (flat_map (body_events fs file_name) ds)
  = map (fun d => path_join d file_name) (filter (opens fs) ds).
Proof.
  induction ds as [|d ds IH]; [reflexivity|]. cbn [flat_map].
  rewrite ifstream_opens_app, IH, body_ifstream.
  cbn [filter]. destruct (opens fs d); reflexivity.
Qed.

Lemma bodies_getlines (fs : filesystem) (file_name : string) (ds : list string) :
  getlines (flat_map (body_events fs file_name) ds)
  = map (fun d => path_join d file_name) (filter (marker_read fs file_name) ds).
Proof.
  induction ds as [|d ds IH]; [reflexivity|]. cbn [flat_map].
  rewrite getlines_app, IH, body_getlines.
  cbn [filter]. destruct (marker_read fs file_name d); reflexivity.
Qed.

Lemma bodies_periodic (fs : filesystem) (file_name : string) (ds : list string) :
  periodic_calls (flat_map (body_events fs file_name) ds)
  = (List.length ds
     + List.length (filter (fun e => negb (skips_periodic e))
                           (readdirs (flat_map (body_events fs file_name) ds))))%nat.
Proof.
  induction ds as [|d ds IH]; [reflexivity|]. cbn [flat_map].
  rewrite periodic_calls_app, IH, body_periodic.
  rewrite readdirs_app, filter_app, length_app. cbn [List.length]. lia.
Qed.

(** ** Directory handles, marker files and the liveness callback *)

(** X1: Every directory that [opendir] opened is closed again, once, in the same
    order, and nothing else is ever closed: at the end of each iteration the
    directories closed are the directories opened, which are the popped
    paths on which [opendir] succeeds.  Hence the close-error counter never
    grows by more than the number of directories opened. *)
Theorem every_opened_directory_is_closed
        (fs : filesystem) (file_name root : string) (count : Z) (n : nat) :
  let w := iterate fs file_name n (start root count) in
  closed_dirs (trace w) = opened_dirs (trace w) /\
  opened_dirs (trace w) = filter (opens fs) (opendir_attempts (trace w)) /\
  closedir_statuses (trace w) = map (closedir fs) (opened_dirs (trace w)) /\
  close_dir_error_count_ w <= count + Z.of_nat (List.length (opened_dirs (trace w))).
Proof.
  intros w.
  pose proof (trace_is_bodies fs file_name root count n) as H. fold w in H.
  assert (Ho : opened_dirs (trace w) = filter (opens fs) (opendir_attempts (trace w)))
    by (rewrite H at 1; apply bodies_opened).
  assert (Hs : closedir_statuses (trace w) = map (closedir fs) (opened_dirs (trace w)))
    by (rewrite Ho; rewrite H at 1; apply bodies_statuses).
  split; [|split; [exact Ho|split; [exact Hs|]]].
  - rewrite Ho. rewrite H at 1. apply bodies_closed.
  - destruct (iterate_extends fs file_name n (start root count)) as [new [Ht Hc]].
    fold w in Ht, Hc. simpl in Ht, Hc. subst new. rewrite Hc.
    unfold failed_closes. rewrite Hs.
    pose proof (filter_length_le (fun s => negb (s =? 0))
                                 (map (closedir fs) (opened_dirs (trace w)))) as Hle.
    rewrite length_map in Hle. lia.
Qed.

(** X2: A marker file is opened exactly for the directories that opened, right
    after each of them and under the name [dir + "/" + file_name]; a line is
    read from it exactly when that open succeeded; a directory that does not
    open never has its marker file touched. *)
Theorem marker_opened_for_each_opened_directory
        (fs : filesystem) (file_name root : string) (count : Z) (n : nat) :
  let tr := trace (iterate fs file_name n (start root count)) in
  ifstream_opens tr
  = map (fun d => path_join d file_name) (opened_dirs tr) /\
  getlines tr
  = map (fun d => path_join d file_name)
        (filter (marker_read fs file_name) (opendir_attempts tr)) /\
  (List.length (getlines tr) <= List.length (ifstream_opens tr)
   <= List.length (opendir_attempts tr))%nat.
Proof.
  intros tr.
  pose proof (trace_is_bodies fs file_name root count n) as H. fold tr in H.
  assert (Ho : opened_dirs tr = filter (opens fs) (opendir_attempts tr))
    by (rewrite H at 1; apply bodies_opened).
  assert (Hi : ifstream_opens tr
               = map (fun d => path_join d file_name) (opened_dirs tr))
    by (rewrite Ho; rewrite H at 1; apply bodies_ifstream).
  assert (Hg : getlines tr
               = map (fun d => path_join d file_name)
                     (filter (marker_read fs file_name) (opendir_attempts tr)))
    by (rewrite H at 1; apply bodies_getlines).
  split; [exact Hi|split; [exact Hg|]].
  rewrite Hg, Hi, Ho, !length_map. split.
  - generalize (opendir_attempts tr). intros l.
    induction l as [|d l IH]; simpl; [lia|].
    unfold marker_read at 1. destruct (opens fs d); simpl.
    + destruct (negb (ifstream_fail fs (path_join d file_name))); simpl; lia.
    + exact IH.
  - apply filter_length_le.
Qed.

(** X3: [periodic_cb] is called once at the start of every iteration and once
    for every entry read, except the entries reported as [DT_DIR] and named
    "." or "..": in particular at least once per directory popped. *)
Theorem periodic_callback_count
        (fs : filesystem) (file_name root : string) (count : Z) (n : nat) :
  let tr := trace (iterate fs file_name n (start root count)) in
  periodic_calls tr
  = (List.length (opendir_attempts tr)
     + List.length (filter (fun e => negb (skips_periodic e)) (readdirs tr)))%nat /\
  (List.length (opendir_attempts tr) <= periodic_calls tr)%nat.
Proof.
  intros tr.
  pose proof (trace_is_bodies fs file_name root count n) as H. fold tr in H.
  assert (Hp : periodic_calls tr
               = (List.length (opendir_attempts tr)
                  + List.length (filter (fun e => negb (skips_periodic e))
                                        (readdirs tr)))%nat).
  { rewrite H at 1 3. apply bodies_periodic. }
  split; [exact Hp|lia].
Qed.

(** ** Paths *)

Lemma string_length_app (a b : string) :
  String.length (a ++ b) = (String.length a + String.length b)%nat.
Proof. induction a as [|c a IH]; simpl; [reflexivity|rewrite IH; reflexivity]. Qed.



Lemma path_join_length (d name : string) :
  String.length (path_join d name) = (String.length d + 1 + String.length name)%nat.
Proof. unfold path_join. rewrite !string_length_app. simpl. lia. Qed.



(** ** The walk stays below its root *)



(** ** Nothing pushed is lost *)

Lemma body_pushes_stack (fs : filesystem) (file_name d : string) :
  map pushed_path (pushes (body_events fs file_name d))
  = rev (body_stack fs file_name d).
Proof.
  unfold body_events, body_stack.
  destruct (opendir fs d) as [ents|]; [|reflexivity].
  destruct (ifstream_fail fs (path_join d file_name)); [reflexivity|].
  simpl. rewrite pushes_app, readdir_events_pushes. simpl.
  rewrite app_nil_r, rev_involutive, map_map. reflexivity.
Qed.

Lemma iterate_conserves (fs : filesystem) (file_name root : string) (n : nat) :
  forall w,
    Permutation (root :: map pushed_path (pushes (trace w)))
                (opendir_attempts (trace w) ++ dirs_stack w) ->
    Permutation
      (root :: map pushed_path (pushes (trace (iterate fs file_name n w))))
      (opendir_attempts (trace (iterate fs file_name n w))
         ++ dirs_stack (iterate fs file_name n w)).
Proof.
  induction n as [|n IH]; intros w H; simpl; [exact H|].
  apply IH. rewrite step_eq. destruct (dirs_stack w) as [|d rest] eqn:Hst; [rewrite Hst; exact H|].
  simpl. rewrite pushes_app, map_app, body_pushes_stack.
  rewrite opendir_attempts_app, body_events_opendir.
  set (A := opendir_attempts (trace w)) in *.
  set (S := body_stack fs file_name d).
  change (root :: ?l ++ rev S) with ((root :: l) ++ rev S).
  etransitivity; [apply Permutation_app_tail, H|].
  etransitivity; [apply Permutation_app_head; symmetry; apply Permutation_rev|].
  rewrite <- !app_assoc. apply Permutation_app_head. simpl.
  apply perm_skip. apply Permutation_app_comm.
Qed.

(** X5: The paths popped so far together with those still stacked are, counted
    with multiplicity, the root and the paths pushed so far: every pushed
    path is popped as often as it was pushed, none is dropped and none is
    invented.  When the walk has ended, the directories visited are exactly
    the root and the pushed paths. *)
Theorem pushed_paths_are_all_visited
        (fs : filesystem) (file_name root : string) (count : Z) (n : nat) :
  let w := iterate fs file_name n (start root count) in
  Permutation (root :: map pushed_path (pushes (trace w)))
              (opendir_attempts (trace w) ++ dirs_stack w) /\
  match trigger_existing_cgroup_probe fs file_name n root count with
  | Some w' => Permutation (root :: map pushed_path (pushes (trace w')))
                           (opendir_attempts (trace w'))
  | None => True
  end.
Proof.
  intros w.
  assert (H : Permutation (root :: map pushed_path (pushes (trace w)))
                          (opendir_attempts (trace w) ++ dirs_stack w))
    by (apply iterate_conserves; simpl; apply Permutation_refl).
  split; [exact H|].
  unfold trigger_existing_cgroup_probe. fold w.
  destruct (dirs_stack w); [|exact I]. rewrite app_nil_r in H. exact H.
Qed.

(** ** Termination on any finite filesystem *)

Lemma budget_pos (width depth : nat) : (1 <= budget width depth)%nat.
Proof. destruct depth; simpl; lia. Qed.

Lemma budget_step (width depth : nat) :
  (budget width depth <= budget width (S depth))%nat.
Proof.
  induction depth as [|k IH].
  - simpl. lia.
  - change (budget width (S (S k))) with (1 + width * budget width (S k))%nat.
    change (budget width (S k)) with (1 + width * budget width k)%nat at 1.
    apply Nat.add_le_mono_l, Nat.mul_le_mono_l, IH.
Qed.

Lemma budget_mono (width a b : nat) :
  (a <= b)%nat -> (budget width a <= budget width b)%nat.
Proof.
  induction 1 as [|b Hle IH]; [lia|].
  etransitivity; [exact IH|apply budget_step].
Qed.

Lemma stack_weight_app (max_len width : nat) (a b : list string) :
  stack_weight max_len width (a ++ b)
  = (stack_weight max_len width a + stack_weight max_len width b)%nat.
Proof. unfold stack_weight. rewrite map_app, list_sum_app. reflexivity. Qed.

Lemma stack_weight_rev (max_len width : nat) (a : list string) :
  stack_weight max_len width (rev a) = stack_weight max_len width a.
Proof.
  induction a as [|x a IH]; simpl; [reflexivity|].
  rewrite stack_weight_app, IH. unfold stack_weight. simpl. lia.
Qed.

Lemma stack_weight_bound (max_len width bound : nat) (l : list string) :
  (forall c, In c l -> (weight max_len width c <= bound)%nat) ->
  (stack_weight max_len width l <= List.length l * bound)%nat.
Proof.
  induction l as [|c l IH]; intros H; [unfold stack_weight; simpl; lia|].
  unfold stack_weight in *. simpl.
  specialize (IH (fun c' Hc => H c' (or_intror Hc))).
  specialize (H c (or_introl eq_refl)). lia.
Qed.

(** Popping a directory pays for everything it pushes. *)
Lemma body_stack_weight (fs : filesystem) (file_name d : string)
      (max_len width : nat) :
  (forall p ents, opendir fs p = Some ents -> (String.length p <= max_len)%nat) ->
  (forall p ents, opendir fs p = Some ents ->
                  (List.length (filter is_pushed ents) <= width)%nat) ->
  (stack_weight max_len width (body_stack fs file_name d) + 1
   <= weight max_len width d)%nat.
Proof.
  intros Hlen Hwidth. unfold body_stack.
  destruct (opendir fs d) as [ents|] eqn:Hopen;
    [|unfold stack_weight; simpl; apply budget_pos].
  destruct (ifstream_fail fs (path_join d file_name));
    [unfold stack_weight; simpl; apply budget_pos|].
  rewrite stack_weight_rev.
  specialize (Hlen d ents Hopen). specialize (Hwidth d ents Hopen).
  unfold weight.
  replace (max_len + 1 - String.length d)%nat
    with (S (max_len - String.length d)) by lia.
  change (budget width (S (max_len - String.length d)))
    with (1 + width * budget width (max_len - String.length d))%nat.
  assert (Hsum : (stack_weight max_len width (pushed_paths d ents)
                  <= List.length (pushed_paths d ents)
                     * budget width (max_len - String.length d))%nat).
  { apply stack_weight_bound. intros c Hc. unfold pushed_paths in Hc.
    apply in_map_iff in Hc. destruct Hc as [e [Hc _]]. subst c.
    unfold weight. apply budget_mono. rewrite path_join_length. lia. }
  unfold pushed_paths in Hsum at 2. rewrite length_map in Hsum.
  pose proof (Nat.mul_le_mono_r _ _ (budget width (max_len - String.length d)) Hwidth).
  lia.
Qed.

Lemma iterate_ends (fs : filesystem) (file_name : string) (max_len width : nat) :
  (forall p ents, opendir fs p = Some ents -> (String.length p <= max_len)%nat) ->
  (forall p ents, opendir fs p = Some ents ->
                  (List.length (filter is_pushed ents) <= width)%nat) ->
  forall n w,
    (stack_weight max_len width (dirs_stack w) <= n)%nat ->
    dirs_stack (iterate fs file_name n w) = [].
Proof.
  intros Hlen Hwidth. induction n as [|n IH]; intros w Hw.
  - simpl. destruct (dirs_stack w) as [|d rest]; [reflexivity|].
    unfold stack_weight in Hw. simpl in Hw.
    pose proof (budget_pos width (max_len + 1 - String.length d)).
    unfold weight in Hw. lia.
  - simpl. apply IH. rewrite step_eq.
    destruct (dirs_stack w) as [|d rest] eqn:Hst;
      [rewrite Hst; unfold stack_weight; simpl; lia|].
    simpl. rewrite stack_weight_app.
    pose proof (body_stack_weight fs file_name d max_len width Hlen Hwidth).
    unfold stack_weight in Hw. simpl in Hw. fold (stack_weight max_len width rest) in Hw.
    lia.
Qed.

Lemma iterate_attempts_bound (fs : filesystem) (file_name : string) (n : nat) :
  forall w,
    (List.length (opendir_attempts (trace (iterate fs file_name n w)))
     <= List.length (opendir_attempts (trace w)) + n)%nat.
Proof.
  induction n as [|n IH]; intros w; simpl; [lia|].
  etransitivity; [apply IH|]. rewrite step_eq.
  destruct (dirs_stack w) as [|d rest]; [lia|].
  simpl. rewrite opendir_attempts_app, body_events_opendir, length_app. simpl. lia.
Qed.

(** X6: The walk ends on every filesystem in which only paths up to some length
    open as directories and every directory stream holds a bounded number of
    entries that get pushed, tree or not: a pushed path is longer than the
    directory it was read from, so the walk from [root] ends within
    [weight max_len width root] iterations and pops no more directories than
    that. *)
Theorem walk_ends_on_finite_filesystem
        (fs : filesystem) (file_name root : string) (count : Z)
        (max_len width : nat) :
  (forall p ents, opendir fs p = Some ents -> (String.length p <= max_len)%nat) ->
  (forall p ents, opendir fs p = Some ents ->
                  (List.length (filter is_pushed ents) <= width)%nat) ->
  exists w,
    (forall k, trigger_existing_cgroup_probe fs file_name
                 (weight max_len width root + k) root count = Some w) /\
    (List.length (opendir_attempts (trace w)) <= weight max_len width root)%nat.
Proof.
  intros Hlen Hwidth.
  set (n := weight max_len width root).
  assert (Hend : dirs_stack (iterate fs file_name n (start root count)) = []).
  { apply (iterate_ends fs file_name max_len width Hlen Hwidth).
    unfold stack_weight. simpl. fold n. lia. }
  exists (iterate fs file_name n (start root count)). split.
  - intros k. unfold trigger_existing_cgroup_probe.
    rewrite iterate_plus, (iterate_empty _ _ _ _ Hend), Hend. reflexivity.
  - pose proof (iterate_attempts_bound fs file_name n (start root count)) as H.
    simpl in H. exact H.
Qed.

Lemma walk_ends_on_finite_filesystem_witness :
  exists w,
    (forall k, trigger_existing_cgroup_probe Scenario.cgA_fs "cgroup.clone_children"
                 (7 + k) "/t/cgA" 0 = Some w) /\
    (List.length (opendir_attempts (trace w)) <= 7)%nat.
Proof.
  apply (walk_ends_on_finite_filesystem
           Scenario.cgA_fs "cgroup.clone_children" "/t/cgA" 0 11 1).
  - intros p ents H. simpl in H.
    destruct (p =? "/t/cgA")%string eqn:E1;
      [apply String.eqb_eq in E1; subst p; simpl; lia|].
    destruct (p =? "/t/cgA/cgA1")%string eqn:E2;
      [apply String.eqb_eq in E2; subst p; simpl; lia|discriminate].
  - intros p ents H. simpl in H.
    destruct (p =? "/t/cgA")%string eqn:E1;
      [inversion H; subst ents; simpl; lia|].
    destruct (p =? "/t/cgA/cgA1")%string eqn:E2;
      [inversion H; subst ents; simpl; lia|discriminate].
Defined.

(** ** Backfill of a cooperative hierarchy *)

Lemma string_app_inv_tail (a b s : string) :
  (a ++ s = b ++ s)%string -> a = b.
Proof.
  revert b. induction a as [|x a IH]; intros [|y b] H; simpl in H.
  - reflexivity.
  - apply (f_equal String.length) in H. simpl in H.
    rewrite string_length_app in H. lia.
  - apply (f_equal String.length) in H. simpl in H.
    rewrite string_length_app in H. lia.
  - inversion H. f_equal. apply IH. assumption.
Qed.

Lemma NoDup_map_path_join (file_name : string) (l : list string) :
  NoDup l -> NoDup (map (fun d => path_join d file_name) l).
Proof.
  induction 1 as [|d l Hnin Hnd IH]; simpl; constructor; [|exact IH].
  intros Hin. apply in_map_iff in Hin. destruct Hin as [d' [Heq Hd']].
  unfold path_join in Heq. apply string_app_inv_tail in Heq. subst d'. contradiction.
Qed.

(** In a cooperative tree every directory opens and has its marker file. *)
Lemma models_cooperative (fs : filesystem) (file_name : string) (t : fs_tree) :
  forall root,
    models fs file_name root t -> cooperative t = true ->
    forall d, In d (directories root t) -> marker_read fs file_name d = true.
Proof.
  induction t as [o m ents IH] using fs_tree_induction. intros root Hm Hc d Hd.
  inversion Hm as [? ? ? ? Hopen Hfail Hsub]; subst.
  simpl in Hc. apply andb_true_iff in Hc. destruct Hc as [Hom Hents].
  apply andb_true_iff in Hom. destruct Hom as [Ho Hmk]. subst o m.
  rewrite directories_eq in Hd. destruct Hd as [Hd|Hd].
  - subst d. unfold marker_read, opens. rewrite Hopen, Hfail. reflexivity.
  - apply in_concat in Hd. destruct Hd as [l [Hl Hd]].
    apply in_map_iff in Hl. destruct Hl as [[e sub] [Hl Hin]]. subst l.
    unfold directories_entry in Hd. destruct sub as [t'|]; [|destruct Hd].
    rewrite forallb_forall in Hents. specialize (Hents _ Hin). simpl in Hents.
    apply andb_true_iff in Hents.
    apply (IH e t' Hin (path_join root (d_name e))); [apply Hsub, Hin|apply Hents|exact Hd].
Qed.

(** X7: On a filesystem that looks like a cooperative tree with pairwise
    distinct directory paths, the walk ends after as many iterations as the
    tree has directories, and it reads one line from the marker file of
    every directory of the tree exactly once; every directory it pops opens
    and is closed again. *)
Theorem every_cgroup_triggered_once
        (fs : filesystem) (file_name root : string) (t : fs_tree) (count : Z) :
  models fs file_name root t ->
  well_formed t = true ->
  cooperative t = true ->
  NoDup (directories root t) ->
  exists w,
    (forall k, trigger_existing_cgroup_probe fs file_name (size t + k) root count
               = Some w) /\
    getlines (trace w)
    = map (fun d => path_join d file_name) (opendir_attempts (trace w)) /\
    closed_dirs (trace w) = opendir_attempts (trace w) /\
    List.length (getlines (trace w)) = size t /\
    forall d, In d (directories root t) ->
              count_occ string_dec (getlines (trace w)) (path_join d file_name) = 1%nat.
Proof.
  intros Hm Hwf Hc Hnd.
  assert (Hitems : forall pt, In pt [(root, t)] ->
            models fs file_name (fst pt) (snd pt) /\ well_formed (snd pt) = true).
  { intros pt [Hpt|[]]. subst pt. split; assumption. }
  destruct (walk_forest fs file_name (forest_size [(root, t)]) [(root, t)]
                        (le_n _) Hitems [] count []) as [Hs Ha].
  unfold forest_walked in Hs, Ha. simpl in Hs, Ha. rewrite app_nil_r in Hs, Ha.
  fold (start root count) in Hs, Ha.
  pose proof (walked_cooperative t root Hc) as Hperm.
  assert (Hlen : List.length (walked root t) = size t)
    by (rewrite (Permutation_length Hperm); apply directories_length).
  rewrite Hlen in Hs, Ha.
  set (w := iterate fs file_name (size t) (start root count)) in *.
  pose proof (trace_is_bodies fs file_name root count (size t)) as Hb. fold w in Hb.
  assert (Hall : forall d, In d (opendir_attempts (trace w)) ->
                           marker_read fs file_name d = true).
  { intros d Hd. rewrite Ha in Hd.
    apply (models_cooperative fs file_name t root Hm Hc).
    eapply Permutation_in; [exact Hperm|exact Hd]. }
  assert (Hfm : filter (marker_read fs file_name) (opendir_attempts (trace w))
                = opendir_attempts (trace w)).
  { revert Hall. generalize (opendir_attempts (trace w)). intros l Hall.
    induction l as [|d l IH]; simpl; [reflexivity|].
    rewrite (Hall d (or_introl eq_refl)). f_equal.
    apply IH. intros d' Hd'. apply Hall. right. exact Hd'. }
  assert (Hfo : filter (opens fs) (opendir_attempts (trace w))
                = opendir_attempts (trace w)).
  { revert Hall. generalize (opendir_attempts (trace w)). intros l Hall.
    induction l as [|d l IH]; simpl; [reflexivity|].
    pose proof (Hall d (or_introl eq_refl)) as Hd. unfold marker_read in Hd.
    apply andb_true_iff in Hd. destruct Hd as [Hd _]. rewrite Hd. f_equal.
    apply IH. intros d' Hd'. apply Hall. right. exact Hd'. }
  assert (Hg : getlines (trace w)
               = map (fun d => path_join d file_name) (opendir_attempts (trace w))).
  { rewrite Hb at 1. rewrite bodies_getlines, Hfm. reflexivity. }
  exists w. split; [|split; [exact Hg|split; [|split]]].
  - intros k. unfold trigger_existing_cgroup_probe.
    rewrite iterate_plus. fold w. rewrite (iterate_empty _ _ _ _ Hs), Hs. reflexivity.
  - rewrite Hb at 1. rewrite bodies_closed, Hfo. reflexivity.
  - rewrite Hg, length_map, Ha. exact Hlen.
  - intros d Hd. apply NoDup_count_occ'.
    + rewrite Hg, Ha. apply NoDup_map_path_join, walked_NoDup, Hnd.
    + rewrite Hg, Ha. apply (in_map (fun d' => path_join d' file_name)).
      eapply Permutation_in; [symmetry; exact Hperm|exact Hd].
Qed.

Lemma every_cgroup_triggered_once_witness :
  exists w,
    trigger_existing_cgroup_probe Scenario.cgA_fs "cgroup.clone_children" 2 "/t/cgA" 0
    = Some w /\
    List.length (getlines (trace w)) = 2%nat.
Proof.
  destruct (every_cgroup_triggered_once
              Scenario.cgA_fs "cgroup.clone_children" "/t/cgA" Scenario.cgA_tree 0
              cgA_models eq_refl eq_refl cgA_NoDup) as [w [Hrun [_ [_ [Hlen _]]]]].
  exists w. split; [exact (Hrun 0%nat)|exact Hlen].
Defined.

(** * Further properties of the locator and of the constructor *)

(** ** [file_exists] looks at the file type only *)

Lemma file_type_bits :
  forallb (fun perm =>
             forallb (fun ty => Z.land (ty + Z.of_nat perm) S_IFMT =? ty)
                     [S_IFREG; S_IFDIR; S_IFLNK; S_IFCHR; S_IFBLK; S_IFIFO; S_IFSOCK])
          (seq 0 4096) = true.
Proof. vm_compute. reflexivity. Qed.

Lemma file_type_of_mode (ty perm : Z) :
  In ty [S_IFREG; S_IFDIR; S_IFLNK; S_IFCHR; S_IFBLK; S_IFIFO; S_IFSOCK] ->
  0 <= perm < 4096 ->
  Z.land (ty + perm) S_IFMT = ty.
Proof.
  intros Hty Hperm.
  pose proof file_type_bits as H. rewrite forallb_forall in H.
  specialize (H (Z.to_nat perm)). rewrite in_seq in H.
  assert (Hin : (0 <= Z.to_nat perm < 0 + 4096)%nat) by lia.
  specialize (H Hin). rewrite forallb_forall in H.
  specialize (H ty Hty). rewrite Z2Nat.id in H by lia.
  apply Z.eqb_eq, H.
Qed.

(** X10: [file_exists] depends on the file-type bits of [st_mode] alone: whatever
    the permission, set-id and sticky bits, a path that [stat] reports as a
    regular file exists for it, and one that is a directory, a symbolic
    link, a device, a FIFO or a socket, or that cannot be [stat]ed, does
    not. *)
Theorem file_exists_ignores_permission_bits
        (fs : filesystem) (file_path : string) (perm : Z) :
  0 <= perm < 4096 ->
  (stat fs file_path = Some (S_IFREG + perm) -> file_exists fs file_path = true) /\
  (forall ty, In ty [S_IFDIR; S_IFLNK; S_IFCHR; S_IFBLK; S_IFIFO; S_IFSOCK] ->
              stat fs file_path = Some (ty + perm) ->
              file_exists fs file_path = false) /\
  (stat fs file_path = None -> file_exists fs file_path = false).
Proof.
  intros Hperm. unfold file_exists, S_ISREG. split; [|split].
  - intros H. rewrite H, file_type_of_mode by (simpl; tauto). reflexivity.
  - intros ty Hty H. rewrite H, file_type_of_mode by (simpl; tauto).
    simpl in Hty.
    destruct Hty as [E|[E|[E|[E|[E|[E|[]]]]]]]; subst ty; reflexivity.
  - intros H. rewrite H. reflexivity.
Qed.

Lemma file_exists_ignores_permission_bits_witness :
  file_exists Scenario.only_third_fs "/sys/fs/cgroup/memory/cgroup.clone_children" = true /\
  file_exists Scenario.only_third_fs "/hostfs/sys/fs/cgroup/memory/cgroup.clone_children"
  = false.
Proof.
  assert (H420 : 0 <= 420 < 4096) by lia.
  assert (H493 : 0 <= 493 < 4096) by lia.
  split.
  - apply (proj1 (file_exists_ignores_permission_bits
                    Scenario.only_third_fs
                    "/sys/fs/cgroup/memory/cgroup.clone_children" 420 H420)).
    reflexivity.
  - apply (proj1 (proj2 (file_exists_ignores_permission_bits
                           Scenario.only_third_fs
                           "/hostfs/sys/fs/cgroup/memory/cgroup.clone_children" 493
                           H493))
                 S_IFDIR (or_introl eq_refl)).
    reflexivity.
Defined.

(** ** Which walks and which probes the constructor ends up with *)

Lemma first_mountpoint_empty (ok : string -> bool) (l : list string) :
  Forall (fun c => is_empty c = false) l ->
  is_empty (first_mountpoint ok l) = negb (existsb ok l).
Proof.
  induction 1 as [|c l Hc Hl IH]; simpl; [reflexivity|].
  destruct (ok c); simpl; [exact Hc|exact IH].
Qed.

Lemma find_v1_empty (fs : filesystem) :
  is_empty (find_cgroup_v1_mountpoint fs)
  = negb (existsb (is_cgroup_v1_mountpoint fs) cgroup_v1_mountpoints).
Proof. apply first_mountpoint_empty. repeat constructor. Qed.

Lemma find_v2_empty (fs : filesystem) :
  is_empty (find_cgroup_v2_mountpoint fs)
  = negb (existsb (is_cgroup_v2_mountpoint fs) cgroup_v2_mountpoints).
Proof. apply first_mountpoint_empty. repeat constructor. Qed.

(** X12: The constructor walks the v1 hierarchy exactly when one of the four v1
    candidates holds a regular [cgroup.clone_children], and the v2 hierarchy
    exactly when the version gate is open and one of the two v2 candidates
    holds a regular [cgroup.controllers]; it walks nothing else, v1 before
    v2, each walk starts at the located mountpoint with that hierarchy's
    marker file, and no walk is ever started on the empty path. *)
Theorem backfill_walks_follow_the_mountpoints
        (fuel : nat) (fs : filesystem) (host_info : HostInfo) (p : prober) :
  CgroupProber fuel fs host_info = Some p ->
  walks (calls p)
  = (if existsb (is_cgroup_v1_mountpoint fs) cgroup_v1_mountpoints
     then [(find_cgroup_v1_mountpoint fs, "cgroup.clone_children")] else [])
    ++ (if gate host_info
           && existsb (is_cgroup_v2_mountpoint fs) cgroup_v2_mountpoints
        then [(find_cgroup_v2_mountpoint fs, "cgroup.controllers")] else []) /\
  (forall root file_name, In (root, file_name) (walks (calls p)) ->
                          is_empty root = false) /\
  host_info_ p = host_info.
Proof.
  intros H.
  pose proof (find_v1_empty fs) as H1. pose proof (find_v2_empty fs) as H2.
  run_constructor fs host_info fuel H p;
    rewrite ?E1 in H1; rewrite ?E2 in H2;
    (destruct (existsb (is_cgroup_v1_mountpoint fs) cgroup_v1_mountpoints);
     cbn [negb] in H1; try discriminate H1);
    (destruct (existsb (is_cgroup_v2_mountpoint fs) cgroup_v2_mountpoints);
     cbn [negb] in H2; try discriminate H2);
    cbn [calls walks flat_map app andb host_info_];
    (split; [reflexivity|split; [|reflexivity]]);
    intros root file_name Hin; cbn [In] in Hin;
    repeat (destruct Hin as [Hin|Hin]; [inversion Hin; subst; assumption|]);
    destruct Hin.
Qed.

Lemma backfill_walks_follow_the_mountpoints_witness :
  exists p,
    CgroupProber 2 Scenario.hybrid_fs {| kernel_version := "5.15.0-91-generic" |} = Some p /\
    walks (calls p)
    = [("/cgroup/memory", "cgroup.clone_children");
       ("/sys/fs/cgroup", "cgroup.controllers")].
Proof.
  destruct (CgroupProber 2 Scenario.hybrid_fs {| kernel_version := "5.15.0-91-generic" |})
    as [p|] eqn:Hp; [|vm_compute in Hp; discriminate Hp].
  exists p. split; [reflexivity|].
  exact (proj1 (backfill_walks_follow_the_mountpoints _ _ _ p Hp)).
Defined.

(** X13: The probe operations of the constructor do not depend on the
    filesystem.  In order: it attaches the two alternative sets and the two
    v1 probes and detaches [cgroup_clone_children_read]; when the gate is
    open it then attaches the [cgroup_control] probe and return probe and
    detaches the return probe and then the probe.  The alternative sets and
    [cgroup_attach_task] are never detached, and nothing is detached that
    was not attached before. *)
Theorem probes_attached_and_detached
        (fuel : nat) (fs : filesystem) (host_info : HostInfo) (p : prober) :
  CgroupProber fuel fs host_info = Some p ->
  filter (fun c => is_attach c || is_detach c) (calls p)
  = [StartProbeAlternatives kill_kss_probe_alternatives;
     StartProbeAlternatives css_populate_dir_probe_alternatives;
     StartProbe "on_cgroup_clone_children_read" "cgroup_clone_children_read";
     StartProbe "on_cgroup_attach_task" "cgroup_attach_task";
     CleanupProbe "cgroup_clone_children_read"]
    ++ (if gate host_info
        then [StartProbe "on_cgroup_control" "cgroup_control";
              StartKretprobe "onret_cgroup_control" "cgroup_control";
              CleanupKretprobe "cgroup_control";
              CleanupProbe "cgroup_control"]
        else []).
Proof.
  intros H.
  run_constructor fs host_info fuel H p; cbn; reflexivity.
Qed.

Lemma probes_attached_and_detached_witness :
  exists p,
    CgroupProber 2 Scenario.hybrid_fs {| kernel_version := "3.10.0" |} = Some p /\
    filter (fun c => is_attach c || is_detach c) (calls p)
    = [StartProbeAlternatives kill_kss_probe_alternatives;
       StartProbeAlternatives css_populate_dir_probe_alternatives;
       StartProbe "on_cgroup_clone_children_read" "cgroup_clone_children_read";
       StartProbe "on_cgroup_attach_task" "cgroup_attach_task";
       CleanupProbe "cgroup_clone_children_read"].
Proof.
  destruct (CgroupProber 2 Scenario.hybrid_fs {| kernel_version := "3.10.0" |})
    as [p|] eqn:Hp; [|vm_compute in Hp; discriminate Hp].
  exists p. split; [reflexivity|].
  exact (probes_attached_and_detached _ _ _ p Hp).
Defined.

(** ** The version gate, byte by byte *)

(** X14: The gate is decided by the first byte in which the release string
    differs from "4.6": a release passes when it starts with a byte above
    '4', with "4" and a byte above '.', with "4." and a byte above '6', or
    with "4.6"; it is refused when it starts with a byte below '4', such as
    the '1' of "10.0", with "4" and a byte below '.', with "4." and a byte
    below '6', such as the '1' of "4.10", or when it is a proper prefix of
    "4.6". *)
Theorem gate_decided_by_first_difference (c : ascii) (rest : string) :
  ((52 < N_of_ascii c)%N -> gate {| kernel_version := String c rest |} = true) /\
  ((N_of_ascii c < 52)%N -> gate {| kernel_version := String c rest |} = false) /\
  ((46 < N_of_ascii c)%N ->
   gate {| kernel_version := String "4" (String c rest) |} = true) /\
  ((N_of_ascii c < 46)%N ->
   gate {| kernel_version := String "4" (String c rest) |} = false) /\
  ((54 < N_of_ascii c)%N ->
   gate {| kernel_version := String "4" (String "." (String c rest)) |} = true) /\
  ((N_of_ascii c < 54)%N ->
   gate {| kernel_version := String "4" (String "." (String c rest)) |} = false) /\
  gate {| kernel_version := String "4" (String "." (String "6" rest)) |} = true /\
  gate {| kernel_version := "4." |} = false /\
  gate {| kernel_version := "4" |} = false /\
  gate {| kernel_version := "" |} = false.
Proof.
  unfold gate, string_ge, cgroup_v2_first_kernel_version. cbn [kernel_version].
  repeat split; try reflexivity; try intros H; cbn [string_compare];
    change (N_of_ascii "4") with 52%N; change (N_of_ascii ".") with 46%N;
    change (N_of_ascii "6") with 54%N; cbn [N.compare Pos.compare Pos.compare_cont];
    try (apply N.compare_gt_iff in H; rewrite H; reflexivity);
    try (apply N.compare_lt_iff in H; rewrite H; reflexivity).
  destruct rest; reflexivity.
Qed.

Lemma digit_cases (a : N) :
  (a < 10)%N ->
  a = 0%N \/ a = 1%N \/ a = 2%N \/ a = 3%N \/ a = 4%N \/
  a = 5%N \/ a = 6%N \/ a = 7%N \/ a = 8%N \/ a = 9%N.
Proof. lia. Qed.

Lemma leading_number_stop (acc : N) (rest : string) :
  starts_with_digit rest = false -> leading_number acc rest = (acc, rest).
Proof.
  destruct rest as [|c r]; simpl; [reflexivity|].
  destruct (digit_of c); [discriminate|reflexivity].
Qed.

(** X15: On a release of the form "M.m..." with a one-digit major number M and a
    one-digit minor number m, the gate decides as the version numbers do:
    it is open exactly when (M, m) is at least (4, 6). *)
Theorem gate_right_on_one_digit_versions (a b : N) (rest : string) :
  (a < 10)%N -> (b < 10)%N -> starts_with_digit rest = false ->
  let release := String (digit_char a) (String "." (String (digit_char b) rest)) in
  major_minor release = (a, b) /\
  gate {| kernel_version := release |} = kernel_supports_cgroup_v2 release.
Proof.
  intros Ha Hb Hrest release.
  assert (Hmm : major_minor release = (a, b)).
  { apply digit_cases in Ha. apply digit_cases in Hb. unfold release.
    repeat (destruct Ha as [Ha|Ha]); subst a;
      repeat (destruct Hb as [Hb|Hb]); subst b;
      unfold major_minor; cbn; rewrite leading_number_stop by exact Hrest;
      reflexivity. }
  split; [exact Hmm|].
  unfold kernel_supports_cgroup_v2. rewrite Hmm. unfold release.
  apply digit_cases in Ha. apply digit_cases in Hb.
  unfold gate, string_ge, cgroup_v2_first_kernel_version. cbn [kernel_version].
  repeat (destruct Ha as [Ha|Ha]); subst a;
    repeat (destruct Hb as [Hb|Hb]); subst b;
    try reflexivity; destruct rest; reflexivity.
Qed.

Lemma gate_right_on_one_digit_versions_witness :
  gate {| kernel_version := "5.4.0-42-generic" |}
  = kernel_supports_cgroup_v2 "5.4.0-42-generic".
Proof.
  assert (H5 : (5 < 10)%N) by reflexivity.
  assert (H4 : (4 < 10)%N) by reflexivity.
  exact (proj2 (gate_right_on_one_digit_versions 5 4 ".0-42-generic" H5 H4 eq_refl)).
Defined.

(** * Further properties: what is read, what is pushed, what is found *)

Lemma body_pushes (fs : filesystem) (file_name d : string) :
  pushes (body_events fs file_name d)
  = if marker_read fs file_name d
    then map (pair d) (filter is_pushed (entries fs d)) else [].
Proof.
  unfold body_events, marker_read, opens, entries.
  destruct (opendir fs d) as [ents|]; [|reflexivity].
  destruct (ifstream_fail fs (path_join d file_name)); [reflexivity|].
  simpl. rewrite pushes_app, readdir_events_pushes. simpl. apply app_nil_r.
Qed.

Lemma bodies_pushes (fs : filesystem) (file_name : string) (ds : list string) :
  pushes (flat_map (body_events fs file_name) ds)
  = flat_map (fun d => map (pair d) (filter is_pushed (entries fs d)))
             (filter (marker_read fs file_name) ds).
Proof.
  induction ds as [|d ds IH]; [reflexivity|]. cbn [flat_map].
  rewrite pushes_app, IH, body_pushes.
  cbn [filter]. destruct (marker_read fs file_name d); reflexivity.
Qed.

Lemma bodies_readdirs (fs : filesystem) (file_name : string) (ds : list string) :
  readdirs (flat_map (body_events fs file_name) ds)
  = flat_map (entries fs) (filter (marker_read fs file_name) ds).
Proof.
  induction ds as [|d ds IH]; [reflexivity|]. cbn [flat_map].
  rewrite readdirs_app, IH, body_readdirs.
  cbn [filter]. unfold entries at 2. destruct (marker_read fs file_name d); reflexivity.
Qed.

(** X8: No subdirectory entry is skipped: for every popped directory that opens
    and whose marker file opens, every entry of its stream is read, once and
    in order, and every entry reported as [DT_DIR] and named neither "." nor
    ".." is pushed; for every other popped directory nothing is read and
    nothing is pushed. *)
Theorem every_subdirectory_entry_is_pushed
        (fs : filesystem) (file_name root : string) (count : Z) (n : nat) :
  let tr := trace (iterate fs file_name n (start root count)) in
  readdirs tr
  = flat_map (entries fs)
             (filter (marker_read fs file_name) (opendir_attempts tr)) /\
  pushes tr
  = flat_map (fun d => map (pair d) (filter is_pushed (entries fs d)))
             (filter (marker_read fs file_name) (opendir_attempts tr)).
Proof.
  intros tr.
  pose proof (trace_is_bodies fs file_name root count n) as H. fold tr in H.
  split.
  - rewrite H at 1. apply bodies_readdirs.
  - rewrite H at 1. apply bodies_pushes.
Qed.

Lemma iterate_counter_offset (fs : filesystem) (file_name : string) (n : nat) :
  forall w1 w2,
    dirs_stack w1 = dirs_stack w2 -> trace w1 = trace w2 ->
    dirs_stack (iterate fs file_name n w1) = dirs_stack (iterate fs file_name n w2) /\
    trace (iterate fs file_name n w1) = trace (iterate fs file_name n w2) /\
    close_dir_error_count_ (iterate fs file_name n w1) - close_dir_error_count_ w1
    = close_dir_error_count_ (iterate fs file_name n w2) - close_dir_error_count_ w2.
Proof.
  induction n as [|n IH]; intros w1 w2 Hs Ht; simpl.
  - repeat split; try assumption. lia.
  - assert (Hstep : dirs_stack (step fs file_name w1) = dirs_stack (step fs file_name w2)
                    /\ trace (step fs file_name w1) = trace (step fs file_name w2)
                    /\ close_dir_error_count_ (step fs file_name w1)
                         - close_dir_error_count_ w1
                       = close_dir_error_count_ (step fs file_name w2)
                         - close_dir_error_count_ w2).
    { rewrite !step_eq, Hs. destruct (dirs_stack w2) as [|d rest] eqn:E.
      - repeat split; try congruence. lia.
      - simpl. rewrite Ht. repeat split. lia. }
    destruct Hstep as [Hs1 [Ht1 Hc1]].
    destruct (IH _ _ Hs1 Ht1) as [Hs' [Ht' Hc']].
    repeat split; try assumption. lia.
Qed.

(** X9: The counter is only ever written: two walks that differ in the value of
    the counter on entry do the same things in the same order, end together,
    and add the same amount to the counter. *)
Theorem walk_independent_of_counter
        (fs : filesystem) (file_name root : string) (c1 c2 : Z) (n : nat) :
  let w1 := iterate fs file_name n (start root c1) in
  let w2 := iterate fs file_name n (start root c2) in
  dirs_stack w1 = dirs_stack w2 /\
  trace w1 = trace w2 /\
  close_dir_error_count_ w1 - c1 = close_dir_error_count_ w2 - c2 /\
  (trigger_existing_cgroup_probe fs file_name n root c1 = None <->
   trigger_existing_cgroup_probe fs file_name n root c2 = None).
Proof.
  intros w1 w2.
  destruct (iterate_counter_offset fs file_name n (start root c1) (start root c2)
                                   eq_refl eq_refl) as [Hs [Ht Hc]].
  fold w1 w2 in Hs, Ht, Hc. simpl in Hc.
  repeat split; try assumption;
    unfold trigger_existing_cgroup_probe; fold w1 w2; rewrite Hs;
    destruct (dirs_stack w2); intros; congruence.
Qed.

(** X11: A locator returns the empty string exactly when none of its candidates
    holds the marker as a regular file; otherwise what it returns is one of
    its candidates and that candidate qualifies. *)
Theorem mountpoint_found_iff_candidate_qualifies (fs : filesystem) :
  is_empty (find_cgroup_v1_mountpoint fs)
  = negb (existsb (is_cgroup_v1_mountpoint fs) cgroup_v1_mountpoints) /\
  is_empty (find_cgroup_v2_mountpoint fs)
  = negb (existsb (is_cgroup_v2_mountpoint fs) cgroup_v2_mountpoints) /\
  (is_empty (find_cgroup_v1_mountpoint fs) = false ->
   In (find_cgroup_v1_mountpoint fs) cgroup_v1_mountpoints /\
   is_cgroup_v1_mountpoint fs (find_cgroup_v1_mountpoint fs) = true) /\
  (is_empty (find_cgroup_v2_mountpoint fs) = false ->
   In (find_cgroup_v2_mountpoint fs) cgroup_v2_mountpoints /\
   is_cgroup_v2_mountpoint fs (find_cgroup_v2_mountpoint fs) = true).
Proof.
  split; [apply find_v1_empty|]. split; [apply find_v2_empty|].
  assert (Hhit : forall ok l,
             is_empty (first_mountpoint ok l) = false ->
             In (first_mountpoint ok l) l /\ ok (first_mountpoint ok l) = true).
  { intros ok l. induction l as [|c l IH]; simpl; [discriminate|].
    destruct (ok c) eqn:Hc; intros H.
    - split; [left; reflexivity|exact Hc].
    - destruct (IH H) as [Hin Hok]. split; [right; exact Hin|exact Hok]. }
  split; apply Hhit.
Qed.
